(** * EdgeLLMPlus: the image-ingestion pipeline of [App.tsx]

  A shallow embedding of the image helpers of [src/EdgeLLMPlus/App.tsx]
  ([detectMimeFromBytes], [resizeNearestRGBA], [writeBmp24], [toMediaPath],
  [ensureBmpForMedia]) and the properties the specification states about
  them; then of the code around them ([inferMimeFromPath], [toggleThought],
  [stopGeneration], the messages [handleSendMessage] sends, the label of a
  model file) with further properties read off the code.

  Conventions.
  - A [Uint8Array] is a [list Z]; an element read outside the array is
    JavaScript's [undefined], here [None] of the list lookup [!!].
  - Image dimensions, array lengths and loop counters are [nat].
  - JavaScript numbers that take part in a division or in [Math.round]
    are IEEE binary64 values, here Rocq's primitive [float]s.
  - The file system, the clock and the network are an explicit [World]
    threaded through a small exception monad. *)

From Stdlib Require Import ZArith NArith Floats Uint63 Lia ZifyNat.
From Stdlib Require Import Ascii String DecimalString DecimalN DecimalPos.
From stdpp Require Import gmap strings list.
From Equations Require Import Equations.


(** ** Byte arrays *)

Abbreviation bytes := (list Z).

(** [arr[i]] where the value is then stored into another [Uint8Array]:
  [undefined] is stored as [0]. *)
Definition get0 (arr : bytes) (i : nat) : Z := default 0%Z (arr !! i).

(* ================================================================== *)
(** ** FormatSniffer: [detectMimeFromBytes] *)

Module Sniffer.

(** The five strings [detectMimeFromBytes] can return. *)
Inductive Mime :=
| image_bmp
| image_png
| image_jpeg
| image_webp
| application_octet_stream.

Definition mime_string (m : Mime) : string :=
  match m with
  | image_bmp => "image/bmp"
  | image_png => "image/png"
  | image_jpeg => "image/jpeg"
  | image_webp => "image/webp"
  | application_octet_stream => "application/octet-stream"
  end.

#[global] Instance Mime_eq_dec : EqDecision Mime.
Proof. solve_decision. Defined.

(** A computation that inspects a byte array and records every index it
    reads with [bytes[i]]. *)
Definition Probe (A : Type) : Type := bytes → A * list nat.

Definition pure {A} (a : A) : Probe A := λ _, (a, []).

Definition pbind {A B} (m : Probe A) (k : A → Probe B) : Probe B :=
  λ b, let '(a, r1) := m b in let '(x, r2) := k a b in (x, r1 ++ r2).

(** [bytes.length >= n] : reads no element. *)
Definition length_ge (n : nat) : Probe bool :=
  λ b, (bool_decide (n ≤ length b), []).

(** [bytes[i] === v] *)
Definition byte_is (i : nat) (v : Z) : Probe bool :=
  λ b, (bool_decide (b !! i = Some v), [i]).

(** [p && q] : [q] is evaluated only when [p] is true. *)
Definition pand (p q : Probe bool) : Probe bool :=
  pbind p (λ x, if x then q else pure false).

Infix "&&&" := pand (at level 40, left associativity).

Definition is_bmp : Probe bool :=
  length_ge 2 &&& byte_is 0 0x42 &&& byte_is 1 0x4d.

Definition is_png : Probe bool :=
  length_ge 8 &&&
  byte_is 0 0x89 &&& byte_is 1 0x50 &&& byte_is 2 0x4e &&& byte_is 3 0x47 &&&
  byte_is 4 0x0d &&& byte_is 5 0x0a &&& byte_is 6 0x1a &&& byte_is 7 0x0a.

Definition is_jpeg : Probe bool :=
  length_ge 3 &&& byte_is 0 0xff &&& byte_is 1 0xd8 &&& byte_is 2 0xff.

Definition is_webp : Probe bool :=
  length_ge 12 &&&
  byte_is 0 0x52 &&& byte_is 1 0x49 &&& byte_is 2 0x46 &&& byte_is 3 0x46 &&&
  byte_is 8 0x57 &&& byte_is 9 0x45 &&& byte_is 10 0x42 &&& byte_is 11 0x50.

(** The chain of [if (...) return ...] statements. *)
Definition detect : Probe Mime :=
  pbind is_bmp (λ b, if b then pure image_bmp else
  pbind is_png (λ b, if b then pure image_png else
  pbind is_jpeg (λ b, if b then pure image_jpeg else
  pbind is_webp (λ b, if b then pure image_webp else
  pure application_octet_stream)))).

Definition detectMimeFromBytes (b : bytes) : Mime := (detect b).1.

(** The indices [detectMimeFromBytes] reads, in order. *)
Definition indices_read (b : bytes) : list nat := (detect b).2.

(** The signature table of the specification. *)
Definition sig_bmp : bytes := [0x42; 0x4d]%Z.
Definition sig_png : bytes := [0x89; 0x50; 0x4e; 0x47; 0x0d; 0x0a; 0x1a; 0x0a]%Z.
Definition sig_jpeg : bytes := [0xff; 0xd8; 0xff]%Z.
Definition sig_riff : bytes := [0x52; 0x49; 0x46; 0x46]%Z.
Definition sig_webp : bytes := [0x57; 0x45; 0x42; 0x50]%Z.

(** [sig] occurs in [b] at offset [off]. *)
Definition has_at (off : nat) (sig b : bytes) : Prop :=
  take (length sig) (drop off b) = sig.

#[global] Instance has_at_dec off sig b : Decision (has_at off sig b).
Proof. unfold has_at. apply _. Defined.

End Sniffer.

(* ================================================================== *)
(** ** JavaScript numbers *)

Module JS.

(** A non-negative integer as a JavaScript number (exact below [2^53]). *)
Definition num (n : nat) : float := PrimFloat.of_uint63 (Uint63.of_Z (Z.of_nat n)).

Definition numZ (z : Z) : float := PrimFloat.of_uint63 (Uint63.of_Z z).

(** [Math.floor(f)] as an integer; [None] when [f] is [NaN] or infinite. *)
Definition floor (f : float) : option Z :=
  match Prim2SF f with
  | S754_zero _ => Some 0%Z
  | S754_finite s m e =>
      let v := if s then Z.neg m else Z.pos m in
      Some (if (0 <=? e)%Z then v * 2 ^ e else v / 2 ^ (- e))%Z
  | _ => None
  end.

(** [Math.round(f)]: the nearest integer, a tie going up. *)
Definition round (f : float) : option Z :=
  match Prim2SF f with
  | S754_zero _ => Some 0%Z
  | S754_finite s m e =>
      let v := if s then Z.neg m else Z.pos m in
      Some (if (0 <=? e)%Z then v * 2 ^ e
            else (2 * v + 2 ^ (- e)) / 2 ^ (- e + 1))%Z
  | _ => None
  end.

(** [Math.min(a, b)]: [NaN] when either argument is. *)
Definition min (a b : float) : float :=
  if PrimFloat.is_nan a || PrimFloat.is_nan b then PrimFloat.nan
  else if PrimFloat.ltb b a then b else a.

(** Storing a number into a [Uint8Array]: [NaN] and the infinities are
    stored as [0], an integer modulo [256]. *)
Definition to_uint8 (v : option Z) : Z :=
  match v with Some z => z mod 256 | None => 0 end%Z.

End JS.

(** ** Loops and typed arrays *)

(** [for (let i = lo; i < lo + n; i++) body(i)] over a state. *)
Definition for_range {S : Type} (lo n : nat) (body : nat → S → S) (s : S) : S :=
  foldl (λ s i, body i s) s (seq lo n).

(** [for (let i = n - 1; i >= 0; i--) body(i)] over a state. *)
Definition for_down {S : Type} (n : nat) (body : nat → S → S) (s : S) : S :=
  foldl (λ s i, body i s) s (reverse (seq 0 n)).

(** [new Uint8Array(n)]: [n] zero bytes. *)
Definition new_Uint8Array (n : nat) : bytes := replicate n 0%Z.

(* ================================================================== *)
(** ** AlphaCompositor: the compositing loop of [ensureBmpForMedia] *)

Module Compositor.

(** [Math.round(c * alpha + 255 * (1 - alpha))] with [alpha = a / 255],
    as stored into the [Uint8Array]. *)
Definition blend (c a : Z) : Z :=
  let alpha := (JS.numZ a / 255)%float in
  JS.to_uint8 (JS.round (JS.numZ c * alpha + 255 * (1 - alpha))%float).

(** The body of [for (let i = 0; i < rgba.length; i += 4)]. *)
Definition composite_pixel (rgba : bytes) (i : nat) (composited : bytes) : bytes :=
  let a := get0 rgba (i + 3) in
  let c1 := <[i := blend (get0 rgba i) a]> composited in
  let c2 := <[i + 1 := blend (get0 rgba (i + 1)) a]> c1 in
  let c3 := <[i + 2 := blend (get0 rgba (i + 2)) a]> c2 in
  <[i + 3 := 255%Z]> c3.

(** The block guarded by [rgba.length === width * height * 4]: under that
    guard the loop runs for [i = 0, 4, ..., 4 * (width * height - 1)]. *)
Definition compositeOnWhite (rgba : bytes) (width height : nat) : bytes :=
  for_range 0 (width * height)
    (λ k, composite_pixel rgba (4 * k))
    (new_Uint8Array (width * height * 4)).

(** The composited pixel [k]: the three blended channels, then [255]. *)
Definition blended_pixel (rgba : bytes) (k : nat) : bytes :=
  let i := 4 * k in
  let a := get0 rgba (i + 3) in
  [blend (get0 rgba i) a; blend (get0 rgba (i + 1)) a; blend (get0 rgba (i + 2)) a; 255%Z].

(** The blend in exact arithmetic: [(c * a + 255 * (255 - a)) / 255]
    rounded to the nearest integer. *)
Definition blend_exact (c a : Z) : Z :=
  ((2 * (c * a + 255 * (255 - a)) + 255) / (2 * 255))%Z.

End Compositor.

(* ================================================================== *)
(** ** Resampler: [resizeNearestRGBA] *)

Module Resampler.

(** [Math.floor((y * srcH) / dstH)] and its like: the quotient of two
    integers below [2^53] is floored exactly. *)
Definition src_coord (d srcN dstN : nat) : nat := (d * srcN) / dstN.

Definition copy_pixel (src : bytes) (si di : nat) (dst : bytes) : bytes :=
  let d1 := <[di := get0 src si]> dst in
  let d2 := <[di + 1 := get0 src (si + 1)]> d1 in
  let d3 := <[di + 2 := get0 src (si + 2)]> d2 in
  <[di + 3 := get0 src (si + 3)]> d3.

Definition resizeNearestRGBA (src : bytes) (srcW srcH dstW dstH : nat) : bytes :=
  let dst := new_Uint8Array (dstW * dstH * 4) in
  for_range 0 dstH (λ y dst,
    let sy := src_coord y srcH dstH in
    for_range 0 dstW (λ x dst,
      let sx := src_coord x srcW dstW in
      let si := (sy * srcW + sx) * 4 in
      let di := (y * dstW + x) * 4 in
      copy_pixel src si di dst) dst) dst.

(** The four bytes of the source pixel sampled for destination pixel
    [(x, y)]. *)
Definition sampled_pixel (src : bytes) (srcW srcH dstW dstH y x : nat) : bytes :=
  let si := (src_coord y srcH dstH * srcW + src_coord x srcW dstW) * 4 in
  [get0 src si; get0 src (si + 1); get0 src (si + 2); get0 src (si + 3)].

(** [width > maxSize || height > maxSize] *)
Definition too_large (width height maxSize : nat) : bool :=
  bool_decide (maxSize < width) || bool_decide (maxSize < height).

(** [Math.min(maxSize / width, maxSize / height)] *)
Definition scale (width height maxSize : nat) : float :=
  JS.min (JS.num maxSize / JS.num width) (JS.num maxSize / JS.num height).

(** [Math.max(1, Math.floor(dim * scale))]; [None] stands for [NaN]. *)
Definition scaled (dim : nat) (scale : float) : option nat :=
  z ← JS.floor (JS.num dim * scale); Some (Z.to_nat (Z.max 1 z)).

(** The new dimensions [nw], [nh]. *)
Definition target_dims (width height maxSize : nat) : option (nat * nat) :=
  let s := scale width height maxSize in
  nw ← scaled width s; nh ← scaled height s; Some (nw, nh).

End Resampler.

(* ================================================================== *)
(** ** BmpEncoder: [writeBmp24] *)

Module Bmp.

(** The output array and the running [offset]. *)
Definition Cursor : Type := bytes * nat.

(** [out[offset++] = v] *)
Definition put (v : Z) (c : Cursor) : Cursor := (<[c.2 := v]> c.1, S c.2).

(** Byte [k] of an integer in little-endian order. *)
Definition le_byte (v : Z) (k : nat) : Z := (v / 256 ^ Z.of_nat k) mod 256.

(** [dv.setUint32(off, v, true)] and [dv.setInt32(off, v, true)]: the
    four low bytes of [v], least significant first. Every call below has
    [off + 4 <= out.length], so the [RangeError] of an out-of-range
    [DataView] write cannot occur. *)
Definition setUint32 (off : nat) (v : Z) (out : bytes) : bytes :=
  <[off + 3 := le_byte v 3]> (<[off + 2 := le_byte v 2]>
    (<[off + 1 := le_byte v 1]> (<[off := le_byte v 0]> out))).

(** [dv.setUint16(off, v, true)] *)
Definition setUint16 (off : nat) (v : Z) (out : bytes) : bytes :=
  <[off + 1 := le_byte v 1]> (<[off := le_byte v 0]> out).

Definition rowStride (width : nat) : nat := width * 3.
Definition rowPad (width : nat) : nat := (4 - rowStride width mod 4) mod 4.
Definition imageSize (width height : nat) : nat :=
  (rowStride width + rowPad width) * height.
Definition fileSize (width height : nat) : nat := 14 + 40 + imageSize width height.

Definition write_headers (width height : nat) (out : bytes) : bytes :=
  let out := <[0 := 0x42%Z]> out in
  let out := <[1 := 0x4d%Z]> out in
  let out := setUint32 2 (Z.of_nat (fileSize width height)) out in
  let out := setUint32 6 0 out in
  let out := setUint32 10 54 out in
  let out := setUint32 14 40 out in
  let out := setUint32 18 (Z.of_nat width) out in
  let out := setUint32 22 (Z.of_nat height) out in
  let out := setUint16 26 1 out in
  let out := setUint16 28 24 out in
  let out := setUint32 30 0 out in
  let out := setUint32 34 (Z.of_nat (imageSize width height)) out in
  let out := setUint32 38 2835 out in
  let out := setUint32 42 2835 out in
  let out := setUint32 46 0 out in
  setUint32 50 0 out.

(** The body of the [x] loop. *)
Definition put_pixel (rgba : bytes) (width y x : nat) (c : Cursor) : Cursor :=
  let si := (y * width + x) * 4 in
  if bool_decide (length rgba ≤ si + 3) then
    put 0 (put 0 (put 0 c))
  else
    put (get0 rgba si) (put (get0 rgba (si + 1)) (put (get0 rgba (si + 2)) c)).

(** The body of the [y] loop. *)
Definition put_row (rgba : bytes) (width y : nat) (c : Cursor) : Cursor :=
  let c := for_range 0 width (put_pixel rgba width y) c in
  for_range 0 (rowPad width) (λ _, put 0) c.

Definition writeBmp24 (rgba : bytes) (width height : nat) : bytes :=
  let out := new_Uint8Array (fileSize width height) in
  let out := write_headers width height out in
  (for_down height (put_row rgba width) (out, 54)).1.

(** *** The container layout, as the specification describes it

    A second description of the encoder's output, by its parts: the 54
    header bytes followed by the rows, bottom row first. [writeBmp24] is
    proved equal to it below. *)

Definition le32 (v : Z) : bytes := [le_byte v 0; le_byte v 1; le_byte v 2; le_byte v 3].
Definition le16 (v : Z) : bytes := [le_byte v 0; le_byte v 1].

(** The value of a little-endian byte string. *)
Definition le_value (b : bytes) : Z := foldr (λ x acc, x + 256 * acc)%Z 0%Z b.

Definition layout_header (width height : nat) : bytes :=
  [0x42; 0x4d]%Z ++ le32 (Z.of_nat (fileSize width height)) ++ le32 0 ++ le32 54 ++
  le32 40 ++ le32 (Z.of_nat width) ++ le32 (Z.of_nat height) ++ le16 1 ++ le16 24 ++
  le32 0 ++ le32 (Z.of_nat (imageSize width height)) ++ le32 2835 ++ le32 2835 ++
  le32 0 ++ le32 0.

(** B, G, R of the source pixel [(x, y)], or black when the pixel does not
    lie wholly inside [rgba]. *)
Definition layout_pixel (rgba : bytes) (width y x : nat) : bytes :=
  let si := (y * width + x) * 4 in
  if bool_decide (length rgba ≤ si + 3) then [0; 0; 0]%Z
  else [get0 rgba (si + 2); get0 rgba (si + 1); get0 rgba si].

Definition layout_row (rgba : bytes) (width y : nat) : bytes :=
  concat (map (layout_pixel rgba width y) (seq 0 width)) ++ replicate (rowPad width) 0%Z.

Definition layout (rgba : bytes) (width height : nat) : bytes :=
  layout_header width height ++
  concat (map (layout_row rgba width) (reverse (seq 0 height))).

End Bmp.

(* ================================================================== *)
(** ** Strings: the [String] methods and regular expressions used *)

Module Uri.

(** [s.startsWith(p)] *)
Definition startsWith (p s : string) : bool := String.prefix p s.

(** [s.includes(p)] *)
Fixpoint includes (p s : string) : bool :=
  String.prefix p s ||
  match s with
  | EmptyString => false
  | String _ s' => includes p s'
  end.

(** [s] without its first [n] characters. *)
Fixpoint sdrop (n : nat) (s : string) : string :=
  match n, s with
  | S n, String _ s' => sdrop n s'
  | _, _ => s
  end.

(** [s.replace(/^file:\/\//, "")] *)
Definition strip_file_scheme (s : string) : string :=
  if String.prefix "file://" s then sdrop 7 s else s.

(** [s.split(sep)[0]] for a one-character separator. *)
Fixpoint before (sep : ascii) (s : string) : string :=
  match s with
  | EmptyString => EmptyString
  | String c s' => if Ascii.eqb c sep then EmptyString else String c (before sep s')
  end.

(** The character class [[a-zA-Z0-9]]. *)
Definition is_alnum (c : ascii) : bool :=
  let n := nat_of_ascii c in
  (48 <=? n) && (n <=? 57) || (65 <=? n) && (n <=? 90) || (97 <=? n) && (n <=? 122).

Fixpoint all_alnum (s : string) : bool :=
  match s with
  | EmptyString => true
  | String c s' => is_alnum c && all_alnum s'
  end.

(** [s.match(/\.([a-zA-Z0-9]+)$/)], giving group 1 of the leftmost match. *)
Fixpoint ext_match (s : string) : option string :=
  match s with
  | EmptyString => None
  | String c s' =>
      if Ascii.eqb c "." && negb (String.eqb s' "") && all_alnum s' then Some s'
      else ext_match s'
  end.

(** [/format[:=]webp/] matches at the start of [s]. *)
Definition hint_here (s : string) : bool :=
  String.prefix "format:webp" s || String.prefix "format=webp" s.

Lemma length_sdrop n t : String.length (sdrop n t) ≤ String.length t.
Proof.
  revert t. induction n as [|n IH]; intros [|a t]; cbn; try lia.
  specialize (IH t). lia.
Qed.

(** [s.replace(/format[:=]webp/g, "format:jpeg")]: scanning from the left,
    each match is replaced and the scan resumes after it. *)
Equations? replace_hint (s : string) : string by wf (String.length s) lt :=
  replace_hint EmptyString := EmptyString;
  replace_hint (String c s') :=
    if hint_here (String c s') then "format:jpeg" +:+ replace_hint (sdrop 10 s')
    else String c (replace_hint s').
Proof.
  match goal with |- String.length ?x < _ => change x with (sdrop 10 s') end.
  pose proof (length_sdrop 10 s'). lia.
Qed.

(** [uri.includes("format:webp") || uri.includes("format=webp")] *)
Definition has_hint (s : string) : bool :=
  includes "format:webp" s || includes "format=webp" s.

(** [`${n}`] for a non-negative integer. *)
Definition decimal (n : N) : string := NilZero.string_of_uint (N.to_uint n).

End Uri.

(* ================================================================== *)
(** ** The world: files, clock, network *)

Module Pipeline.
Import Sniffer Uri.

(** What the surroundings decide. The [k]-th interaction with the clock,
    the network or the disk is answered by the entry [k]; the two decoder
    libraries are functions that may throw ([None]). *)
Record Env := {
  (** [RNFS.CachesDirectoryPath] *)
  CachesDirectoryPath : string;
  (** the value [Date.now()] returns *)
  Date_now_at : nat → N;
  (** the body a download of the URL stores, or [None] when the download
      promise rejects *)
  download_at : nat → string → option bytes;
  (** whether [RNFS.writeFile] to the path succeeds *)
  writable_at : nat → string → bool;
  (** [UPNG.decode] followed by [UPNG.toRGBA8]: width, height, frames *)
  UPNG_decode : bytes → option (nat * nat * list bytes);
  (** [JPEG.decode(bytes, {useTArray: true})]: width, height, data *)
  JPEG_decode : bytes → option (nat * nat * bytes);
}.

Record World := {
  (** the local file system: path to content *)
  files : gmap string bytes;
  (** the number of interactions so far *)
  events : nat;
  (** the URLs handed to [RNFS.downloadFile], oldest first *)
  fetched : list string;
}.

(** The outcome of an [async] computation: a value, a thrown exception, or
    no outcome within the recursion depth allowed. *)
Inductive Res (A : Type) :=
| Ret (a : A)
| Throw
| Diverge.
Arguments Ret {A} a.
Arguments Throw {A}.
Arguments Diverge {A}.

Definition M (A : Type) : Type := World → Res A * World.

#[global] Instance M_ret : MRet M := λ A a w, (Ret a, w).

#[global] Instance M_bind : MBind M := λ A B f m w,
  match m w with
  | (Ret a, w') => f a w'
  | (Throw, w') => (Throw, w')
  | (Diverge, w') => (Diverge, w')
  end.

Definition throw {A} : M A := λ w, (Throw, w).
Definition diverge {A} : M A := λ w, (Diverge, w).

(** [try { body } catch { handler }] *)
Definition try_catch {A} (body handler : M A) : M A := λ w,
  match body w with
  | (Throw, w') => handler w'
  | r => r
  end.

Section WithEnv.
Context (env : Env).

Definition Date_now : M N := λ w,
  (Ret (Date_now_at env (events w)),
   {| files := files w; events := S (events w); fetched := fetched w |}).

(** [await RNFS.downloadFile({fromUrl, toFile}).promise] *)
Definition RNFS_downloadFile (fromUrl toFile : string) : M () := λ w,
  match download_at env (events w) fromUrl with
  | Some body =>
      (Ret (), {| files := <[toFile := body]> (files w); events := S (events w);
                  fetched := fetched w ++ [fromUrl] |})
  | None =>
      (Throw, {| files := files w; events := S (events w);
                 fetched := fetched w ++ [fromUrl] |})
  end.

(** [RNFS.readFile(path, "base64")] decoded back into bytes. *)
Definition RNFS_readFile (path : string) : M bytes := λ w,
  match files w !! path with
  | Some b => (Ret b, w)
  | None => (Throw, w)
  end.

(** [RNFS.writeFile(path, base64, "base64")] of the encoded bytes. *)
Definition RNFS_writeFile (path : string) (content : bytes) : M () := λ w,
  if writable_at env (events w) path then
    (Ret (), {| files := <[path := content]> (files w); events := S (events w);
                fetched := fetched w |})
  else
    (Throw, {| files := files w; events := S (events w); fetched := fetched w |}).

(** [RNFS.stat(path)], of which only the size is read. *)
Definition RNFS_stat (path : string) : M nat := λ w,
  match files w !! path with
  | Some b => (Ret (length b), w)
  | None => (Throw, w)
  end.

(** [`${RNFS.CachesDirectoryPath}/llm_img_${now}.${ext}`] *)
Definition cache_file (now : N) (ext : string) : string :=
  CachesDirectoryPath env +:+ "/llm_img_" +:+ decimal now +:+ "." +:+ ext.

(** *** MediaLocator: [toMediaPath] *)

Definition toMediaPath (uri : string) : M (option string) :=
  try_catch
    (if String.eqb uri "" then mret None
     else if startsWith "file://" uri || startsWith "/" uri then
       let filePath := strip_file_scheme uri in
       mret (Some ("file://" +:+ filePath))
     else if startsWith "http://" uri || startsWith "https://" uri then
       let clean := before "#" (before "?" uri) in
       let ext := default "jpg" (ext_match clean) in
       now ← Date_now;
       let dest := cache_file now ext in
       RNFS_downloadFile uri dest;;
       mret (Some ("file://" +:+ dest))
     else mret None)
    (mret None).

(** *** MediaNormalizer: [ensureBmpForMedia] *)

(** [width], [height] and [rgba] ([None] for [null]). *)
Definition Decoded : Type := nat * nat * option bytes.

(** [width = 1; height = 1; rgba = new Uint8Array([255,255,255,255])] *)
Definition white_pixel : bytes := [255; 255; 255; 255]%Z.
Definition placeholder : Decoded := (1, 1, Some white_pixel).

(** The PNG decode and compositing block; the block of the unknown-format
    branch is the same code. A decoder exception leaves the block. *)
Definition png_block (b : bytes) : M Decoded :=
  match UPNG_decode env b with
  | None => throw
  | Some (width, height, frames) =>
      let rgba := head frames in
      mret (width, height,
            match rgba with
            | Some r =>
                if decide (length r = width * height * 4)
                then Some (Compositor.compositeOnWhite r width height)
                else Some r
            | None => None
            end)
  end.

Definition jpeg_block (b : bytes) : M Decoded :=
  match JPEG_decode env b with
  | None => throw
  | Some (width, height, data) => mret (width, height, Some data)
  end.

(** Unknown format: PNG first, then JPEG, then the placeholder. *)
Definition unknown_block (b : bytes) : M Decoded :=
  try_catch (png_block b) (try_catch (jpeg_block b) (mret placeholder)).

(** The WebP block. [inl r] is its [return r]; [inr d] falls through to
    the code after the branches. [self] is [ensureBmpForMedia] itself. *)
Definition webp_block (self : string → M (option string)) (uri : string)
    : M (option string + Decoded) :=
  try_catch
    (if has_hint uri then
       let altUri := replace_hint uri in
       altLocal ← toMediaPath altUri;
       returned ←
         match altLocal with
         | Some altLocal =>
             let altNativePath := strip_file_scheme altLocal in
             altBytes ← RNFS_readFile altNativePath;
             let altMime := detectMimeFromBytes altBytes in
             if bool_decide (altMime = image_jpeg) || bool_decide (altMime = image_png)
             then r ← self altUri; mret (Some r)
             else mret None
         | None => mret None
         end;
       match returned with
       | Some r => mret (inl r)
       | None => mret (inr placeholder)
       end
     else mret (inr placeholder))
    (mret (inr placeholder)).

(** [if (!rgba) { width = 1; height = 1; rgba = ... }] *)
Definition or_placeholder (d : Decoded) : nat * nat * bytes :=
  match d with
  | (_, _, None) => (1, 1, white_pixel)
  | (width, height, Some rgba) => (width, height, rgba)
  end.

(** The optional resize. [None]: [nw] and [nh] are [NaN]; [writeBmp24]
    then allocates an empty array and its first [DataView] write throws a
    [RangeError]. *)
Definition resize_if_large (img : nat * nat * bytes) (maxSize : nat)
    : option (nat * nat * bytes) :=
  let '(width, height, rgba) := img in
  if Resampler.too_large width height maxSize then
    '(nw, nh) ← Resampler.target_dims width height maxSize;
    Some (nw, nh, Resampler.resizeNearestRGBA rgba width height nw nh)
  else Some (width, height, rgba).

(** From [if (!rgba)] to the final [return]. *)
Definition encode_and_write (d : Decoded) (maxSize : option nat) : M (option string) :=
  let maxSize := default 1024 maxSize in
  match resize_if_large (or_placeholder d) maxSize with
  | None => throw
  | Some (width, height, rgba) =>
      let bmpBytes := Bmp.writeBmp24 rgba width height in
      now ← Date_now;
      let outPath := cache_file now "bmp" in
      RNFS_writeFile outPath bmpBytes;;
      _ ← RNFS_stat outPath;
      mret (Some ("file://" +:+ outPath))
  end.

(** From [const mime = detectMimeFromBytes(bytes)] to the final [return]. *)
Definition convert (self : string → M (option string)) (uri : string)
    (maxSize : option nat) (local : string) (b : bytes) : M (option string) :=
  let mime := detectMimeFromBytes b in
  if bool_decide (mime = image_bmp) then mret (Some local)
  else
    r ← match mime with
         | image_webp => webp_block self uri
         | image_png => d ← png_block b; mret (inr d)
         | image_jpeg => d ← jpeg_block b; mret (inr d)
         | _ => d ← unknown_block b; mret (inr d)
         end;
    match r with
    | inl result => mret result
    | inr d => encode_and_write d maxSize
    end.

(** [ensureBmpForMedia(uri, {maxSize})]; [depth] bounds the nesting of the
    recursive calls. *)
Fixpoint ensureBmpForMedia (depth : nat) (uri : string) (maxSize : option nat)
    : M (option string) :=
  match depth with
  | 0 => diverge
  | S depth =>
      try_catch
        (local ← toMediaPath uri;
         match local with
         | None => mret None
         | Some local =>
             let nativePath := strip_file_scheme local in
             b ← RNFS_readFile nativePath;
             convert (λ u, ensureBmpForMedia depth u maxSize) uri maxSize local b
         end)
        (mret None)
  end.

End WithEnv.
End Pipeline.

(* ================================================================== *)
(** ** The conversation: [toggleThought], [stopGeneration] and the
    messages [handleSendMessage] hands to the model *)

Module Chat.
Import Uri Pipeline.

Inductive Role := user | assistant | system.

#[global] Instance Role_eq_dec : EqDecision Role.
Proof. solve_decision. Defined.

(** The type [Message]; an absent optional field is [None]. *)
Record Message := {
  role : Role;
  content : string;
  thought : option string;
  showThought : option bool;
}.

(** [{ ...msg, showThought: !msg.showThought }]: [undefined] negates to
    [true]. *)
Definition toggled (msg : Message) : Message :=
  {| role := role msg; content := content msg; thought := thought msg;
     showThought := Some (negb (default false (showThought msg))) |}.

(** The state update of [toggleThought(messageIndex)]. *)
Definition toggleThought (messageIndex : nat) (prev : list Message) : list Message :=
  imap (λ index msg, if decide (index = messageIndex) then toggled msg else msg) prev.

(** ["\n\n*Generation stopped by user*"] *)
Definition stopped_marker : string :=
  String "010" (String "010" "*Generation stopped by user*").

(** The state update of [stopGeneration]; [None] is the [TypeError] of
    reading [role] of [undefined] when [prev] is empty. *)
Definition mark_stopped (prev : list Message) : option (list Message) :=
  match last prev with
  | None => None
  | Some lastMessage =>
      if decide (role lastMessage = assistant) then
        Some (take (length prev - 1) prev ++
              [{| role := role lastMessage;
                  content := content lastMessage +:+ stopped_marker;
                  thought := thought lastMessage;
                  showThought := showThought lastMessage |}])
      else Some prev
  end.

(** A message of the completion request: plain text, or the text and the
    image of a multimodal turn. *)
Inductive Part :=
| text (t : string)
| image_url (url : string).

Inductive ApiContent :=
| plain (s : string)
| parts (ps : list Part).

Record ApiMessage := {
  api_role : Role;
  api_content : ApiContent;
}.

(** [chat.map((m, idx) => ...)] of [handleSendMessage]; a [null] or empty
    [mediaPath] is falsy. *)
Definition apiMessages (chat : list Message) (userText : string)
    (mediaPath : option string) : list ApiMessage :=
  imap (λ idx m,
    let base := {| api_role := role m; api_content := plain (content m) |} in
    let isLatestUser :=
      bool_decide (role m = user) && bool_decide (idx = length chat - 1) in
    match mediaPath with
    | Some mediaPath =>
        if isLatestUser && negb (String.eqb mediaPath "") then
          let nativePath := strip_file_scheme mediaPath in
          {| api_role := user;
             api_content := parts [text userText; image_url nativePath] |}
        else base
    | None => base
    end) chat.

(** [`${userInput}\n\n![image](${attachedImageUrl})`], or [userInput] when
    no image is attached. *)
Definition displayContent (userInput attachedImageUrl : string) : string :=
  if String.eqb attachedImageUrl "" then userInput
  else userInput +:+ String "010" (String "010" "![image](") +:+ attachedImageUrl +:+ ")".

Definition newConversation (conversation : list Message)
    (userInput attachedImageUrl : string) : list Message :=
  conversation ++
  [{| role := user; content := displayContent userInput attachedImageUrl;
      thought := None; showThought := None |}].

(** [handleSendMessage] from [const attachedImageUrl = imageUrl] to
    [const apiMessages = ...], past the two guards: the messages the
    completion is asked with. *)
Definition request_messages (env : Env) (depth : nat) (conversation : list Message)
    (userInput imageUrl : string) : M (list ApiMessage) :=
  let chat := newConversation conversation userInput imageUrl in
  mediaPath ←
    (if String.eqb imageUrl "" then mret None
     else ensureBmpForMedia env depth imageUrl (Some 1024));
  mret (apiMessages chat userInput mediaPath).

End Chat.

(* ================================================================== *)
(** ** Names: the extension of a download, [inferMimeFromPath] and the
    label of a model file *)

Module Names.
Import Uri.

(** The extension [toMediaPath] gives a download:
    [extMatch ? extMatch[1] : "jpg"] for the reference without its query
    and fragment. *)
Definition download_ext (uri : string) : string :=
  default "jpg" (ext_match (before "#" (before "?" uri))).

(** [c.toLowerCase()] for the characters [[a-zA-Z0-9]] that [ext_match]
    lets through. *)
Definition lower (c : ascii) : ascii :=
  let n := nat_of_ascii c in
  if (65 <=? n) && (n <=? 90) then ascii_of_nat (n + 32) else c.

Fixpoint toLowerCase (s : string) : string :=
  match s with
  | EmptyString => EmptyString
  | String c s' => String (lower c) (toLowerCase s')
  end.

Definition inferMimeFromPath (path : string) : string :=
  let clean := before "#" (before "?" path) in
  let ext := match ext_match clean with Some e => toLowerCase e | None => "" end in
  if String.eqb ext "png" then "image/png"
  else if String.eqb ext "jpg" || String.eqb ext "jpeg" then "image/jpeg"
  else if String.eqb ext "webp" then "image/webp"
  else if String.eqb ext "gif" then "image/gif"
  else "image/jpeg".

(** [s.split(sep)] for a one-character separator: never empty. *)
Fixpoint split (sep : ascii) (s : string) : list string :=
  match s with
  | EmptyString => [EmptyString]
  | String c s' =>
      if Ascii.eqb c sep then EmptyString :: split sep s'
      else match split sep s' with
           | h :: t => String c h :: t
           | [] => [String c EmptyString]
           end
  end.

(** [arr[i]] for an integer [i]: [undefined] outside the array, in
    particular for a negative [i]. *)
Definition js_index {A} (arr : list A) (i : Z) : option A :=
  if (i <? 0)%Z then None else arr !! Z.to_nat i.

(** The label of a model file in the list:
    [file.split("-")[-1] == "imat" ? file : file.split("-").pop()]. *)
Definition gguf_label (file : string) : string :=
  if decide (js_index (split "-" file) (-1) = Some "imat") then file
  else default "" (last (split "-" file)).

End Names.

(* ================================================================== *)
(** ** Invocations in flight together *)

Module Together.
Import Sniffer Uri Pipeline Names.

Section WithEnv.
Context (env : Env).

(** The remote branch of [toMediaPath] up to its [await]: the name of the
    file is built from the clock and the download is requested. *)
Definition remote_begin (uri : string) : M string :=
  now ← Date_now env; mret (cache_file env now (download_ext uri)).

(** [await res.promise] and the [return] after it, inside the [try]: the
    download completes, or its promise rejects. *)
Definition remote_finish (uri dest : string) : M (option string) :=
  try_catch
    (RNFS_downloadFile env uri dest;; mret (Some ("file://" +:+ dest)))
    (mret None).

(** [ensureBmpForMedia] from the value of [await toMediaPath(uri)] on. *)
Definition resume (depth : nat) (uri : string) (maxSize : option nat)
    (local : option string) : M (option string) :=
  try_catch
    (match local with
     | None => mret None
     | Some local =>
         let nativePath := strip_file_scheme local in
         b ← RNFS_readFile nativePath;
         convert env (λ u, ensureBmpForMedia env depth u maxSize) uri maxSize local b
     end)
    (mret None).


End WithEnv.
End Together.

(* ================================================================== *)
(** ** Sample surroundings *)

(** Concrete files, decoders and worlds on which the statements below are
    exercised. The decoders are tables standing for [UPNG] and [jpeg-js] on
    the sample files only. *)
Module Samples.
Import Sniffer Pipeline.

(** A BMP file, and a file that starts like a PNG but is cut short. *)
Definition bmp_file : bytes := [0x42; 0x4d; 0x3a; 0; 0; 0]%Z.
Definition broken_png : bytes := sig_png ++ [0; 0]%Z.

(** A file that starts like a JPEG and goes on with no marker. *)
Definition broken_jpeg : bytes := sig_jpeg ++ [0; 0]%Z.

(** A PNG of one fully transparent pixel, and two JPEGs of one pixel. *)
Definition clear_png : bytes := sig_png ++ [1]%Z.
Definition red_jpeg : bytes := sig_jpeg ++ [1]%Z.
Definition blue_jpeg : bytes := sig_jpeg ++ [2]%Z.

(** A WebP body. *)
Definition webp_file : bytes := sig_riff ++ [4; 0; 0; 0]%Z ++ sig_webp.

Definition sample_UPNG (b : bytes) : option (nat * nat * list bytes) :=
  if decide (b = clear_png) then Some (1, 1, [[10; 20; 30; 0]%Z]) else None.

Definition sample_JPEG (b : bytes) : option (nat * nat * bytes) :=
  if decide (b = red_jpeg) then Some (1, 1, [255; 0; 0; 255]%Z)
  else if decide (b = blue_jpeg) then Some (1, 1, [0; 0; 255; 255]%Z)
  else None.

(** What the sample CDN serves. *)
Definition sample_remote (url : string) : option bytes :=
  if String.eqb url "https://cdn.example/cat?format=webp" then Some webp_file
  else if String.eqb url "https://cdn.example/cat?format:jpeg" then Some red_jpeg
  else if String.eqb url "https://cdn.example/dog.webp" then Some webp_file
  else None.

(** A clock that advances by one millisecond per interaction, and one
    that stays within the same millisecond. *)
Definition ticking : Env := {|
  CachesDirectoryPath := "/cache";
  Date_now_at := λ k, (1700000000000 + N.of_nat k)%N;
  download_at := λ _, sample_remote;
  writable_at := λ _ _, true;
  UPNG_decode := sample_UPNG;
  JPEG_decode := sample_JPEG |}.

Definition same_millisecond : Env := {|
  CachesDirectoryPath := "/cache";
  Date_now_at := λ _, 1700000000000%N;
  download_at := λ _, sample_remote;
  writable_at := λ _ _, true;
  UPNG_decode := sample_UPNG;
  JPEG_decode := sample_JPEG |}.

Definition disk : gmap string bytes :=
  <["/sdcard/a.bmp" := bmp_file]> (<["/sdcard/broken.png" := broken_png]>
  (<["/sdcard/broken.jpg" := broken_jpeg]>
  (<["/sdcard/clear.png" := clear_png]> (<["/sdcard/red.jpg" := red_jpeg]>
  (<["/sdcard/blue.jpg" := blue_jpeg]> ∅))))).

Definition start : World := {| files := disk; events := 0; fetched := [] |}.

(** A disk that takes no more files; no decoder is at hand. *)
Definition disk_full : Env := {|
  CachesDirectoryPath := "/cache";
  Date_now_at := λ k, (1700000000000 + N.of_nat k)%N;
  download_at := λ _ _, None;
  writable_at := λ _ _, false;
  UPNG_decode := λ _, None;
  JPEG_decode := λ _, None |}.

(** A WebP file on the disk, under a name that carries no hint. *)
Definition webp_on_disk : World :=
  {| files := <["/sdcard/pic.webp" := webp_file]> disk; events := 0; fetched := [] |}.





End Samples.

(* ================================================================== *)
(** * Properties *)

(** ** [detectMimeFromBytes] *)

Module SnifferFacts.
Import Sniffer.

Lemma pand_val p q b : (pand p q b).1 = (p b).1 && (q b).1.
Proof.
  unfold pand, pbind, pure. destruct (p b) as [[] r1]; cbn; [|done].
  by destruct (q b).
Qed.

Lemma pand_reads p q b :
  (pand p q b).2 = (p b).2 ++ (if (p b).1 then (q b).2 else []).
Proof.
  unfold pand, pbind, pure. destruct (p b) as [[] r1]; cbn; [|done].
  by destruct (q b).
Qed.

Lemma has_at_nil off b : has_at off [] b.
Proof. unfold has_at. by rewrite take_0. Qed.

Lemma has_at_cons off s sig b :
  has_at off (s :: sig) b ↔ b !! off = Some s ∧ has_at (S off) sig b.
Proof.
  unfold has_at. cbn [length].
  destruct (b !! off) as [x|] eqn:E.
  - rewrite (drop_S _ _ _ E). cbn. split.
    + intros [= -> ?]. done.
    + intros [[= ->] ->]. done.
  - rewrite drop_ge by (by apply lookup_ge_None). cbn. split; [done|]. by intros [? _].
Qed.

Ltac sig_val :=
  rewrite !pand_val; cbn;
  apply eq_true_iff_eq; rewrite ?andb_true_iff, ?bool_decide_eq_true;
  rewrite ?has_at_cons;
  split; [naive_solver|];
  intros H; repeat split; try naive_solver.

Lemma is_bmp_val b : (is_bmp b).1 = bool_decide (has_at 0 sig_bmp b).
Proof.
  unfold is_bmp, sig_bmp. sig_val.
  destruct H as (_&H&_). apply lookup_lt_Some in H. lia.
Qed.

Lemma is_png_val b : (is_png b).1 = bool_decide (has_at 0 sig_png b).
Proof.
  unfold is_png, sig_png. sig_val.
  destruct H as (_&_&_&_&_&_&_&H&_). apply lookup_lt_Some in H. lia.
Qed.

Lemma is_jpeg_val b : (is_jpeg b).1 = bool_decide (has_at 0 sig_jpeg b).
Proof.
  unfold is_jpeg, sig_jpeg. sig_val.
  destruct H as (_&_&H&_). apply lookup_lt_Some in H. lia.
Qed.

Lemma is_webp_val b :
  (is_webp b).1 = bool_decide (has_at 0 sig_riff b ∧ has_at 8 sig_webp b).
Proof.
  unfold is_webp, sig_riff, sig_webp. sig_val.
  destruct H as [_ (_&_&_&H&_)]. apply lookup_lt_Some in H. lia.
Qed.

Lemma detect_val b :
  detectMimeFromBytes b =
    if (is_bmp b).1 then image_bmp
    else if (is_png b).1 then image_png
    else if (is_jpeg b).1 then image_jpeg
    else if (is_webp b).1 then image_webp
    else application_octet_stream.
Proof.
  unfold detectMimeFromBytes, detect, pbind, pure.
  destruct (is_bmp b) as [[] ?]; [done|].
  destruct (is_png b) as [[] ?]; [done|].
  destruct (is_jpeg b) as [[] ?]; [done|].
  destruct (is_webp b) as [[] ?]; done.
Qed.

Lemma detect_reads b :
  indices_read b =
    (is_bmp b).2 ++ if (is_bmp b).1 then [] else
    (is_png b).2 ++ if (is_png b).1 then [] else
    (is_jpeg b).2 ++ if (is_jpeg b).1 then [] else
    (is_webp b).2 ++ [].
Proof.
  unfold indices_read, detect, pbind, pure.
  destruct (is_bmp b) as [[] ?]; [done|].
  destruct (is_png b) as [[] ?]; [done|].
  destruct (is_jpeg b) as [[] ?]; [done|].
  destruct (is_webp b) as [[] ?]; done.
Qed.

Definition in_bounds (b : bytes) (p : Probe bool) : Prop :=
  Forall (λ i, i < length b) (p b).2.

Lemma in_bounds_pand b p q :
  in_bounds b p → ((p b).1 = true → in_bounds b q) → in_bounds b (pand p q).
Proof.
  unfold in_bounds. intros Hp Hq. rewrite pand_reads. apply Forall_app. split; [done|].
  destruct (p b).1; [by apply Hq | constructor].
Qed.

Lemma in_bounds_byte_is b i v : i < length b → in_bounds b (byte_is i v).
Proof. intros. unfold in_bounds. cbn. by repeat constructor. Qed.

Lemma in_bounds_length_ge b n : in_bounds b (length_ge n).
Proof. constructor. Qed.

Lemma pand_true p q b : (pand p q b).1 = true → (p b).1 = true.
Proof. rewrite pand_val. by intros [? _]%andb_true_iff. Qed.

Lemma length_ge_true n b : (length_ge n b).1 = true → n ≤ length b.
Proof. cbn. by rewrite bool_decide_eq_true. Qed.

Ltac bounds :=
  repeat (apply in_bounds_pand; [| intros Hg; apply in_bounds_byte_is;
                                    repeat apply pand_true in Hg;
                                    apply length_ge_true in Hg; lia]);
  apply in_bounds_length_ge.

Lemma in_bounds_bmp b : in_bounds b is_bmp.
Proof. unfold is_bmp. bounds. Qed.
Lemma in_bounds_png b : in_bounds b is_png.
Proof. unfold is_png. bounds. Qed.
Lemma in_bounds_jpeg b : in_bounds b is_jpeg.
Proof. unfold is_jpeg. bounds. Qed.
Lemma in_bounds_webp b : in_bounds b is_webp.
Proof. unfold is_webp. bounds. Qed.

(** C3. For every byte sequence, of any length, [detectMimeFromBytes]
    follows the signature table: BMP exactly when bytes 0-1 are [42 4D],
    PNG exactly when bytes 0-7 are [89 50 4E 47 0D 0A 1A 0A], JPEG exactly
    when bytes 0-2 are [FF D8 FF], WebP exactly when bytes 0-3 are [RIFF]
    and bytes 8-11 are [WEBP], and unknown otherwise; in particular a
    buffer shorter than 2 bytes is unknown and the PNG signature followed
    by anything is PNG; and every index the function reads lies inside
    the buffer. *)
Theorem detect_table (b : bytes) :
  (detectMimeFromBytes b = image_bmp ↔ has_at 0 sig_bmp b) ∧
  (detectMimeFromBytes b = image_png ↔ has_at 0 sig_png b) ∧
  (detectMimeFromBytes b = image_jpeg ↔ has_at 0 sig_jpeg b) ∧
  (detectMimeFromBytes b = image_webp ↔ has_at 0 sig_riff b ∧ has_at 8 sig_webp b) ∧
  (detectMimeFromBytes b = application_octet_stream ↔
     ¬ has_at 0 sig_bmp b ∧ ¬ has_at 0 sig_png b ∧ ¬ has_at 0 sig_jpeg b ∧
     ¬ (has_at 0 sig_riff b ∧ has_at 8 sig_webp b)) ∧
  (length b < 2 → detectMimeFromBytes b = application_octet_stream) ∧
  (∀ rest, detectMimeFromBytes (sig_png ++ rest) = image_png) ∧
  Forall (λ i, i < length b) (indices_read b).
Proof.
  assert (X1 : has_at 0 sig_bmp b → ¬ has_at 0 sig_png b).
  { unfold sig_bmp, sig_png. rewrite !has_at_cons. naive_solver. }
  assert (X2 : has_at 0 sig_bmp b → ¬ has_at 0 sig_jpeg b).
  { unfold sig_bmp, sig_jpeg. rewrite !has_at_cons. naive_solver. }
  assert (X3 : has_at 0 sig_bmp b → ¬ has_at 0 sig_riff b).
  { unfold sig_bmp, sig_riff. rewrite !has_at_cons. naive_solver. }
  assert (X4 : has_at 0 sig_png b → ¬ has_at 0 sig_jpeg b).
  { unfold sig_png, sig_jpeg. rewrite !has_at_cons. naive_solver. }
  assert (X5 : has_at 0 sig_png b → ¬ has_at 0 sig_riff b).
  { unfold sig_png, sig_riff. rewrite !has_at_cons. naive_solver. }
  assert (X6 : has_at 0 sig_jpeg b → ¬ has_at 0 sig_riff b).
  { unfold sig_jpeg, sig_riff. rewrite !has_at_cons. naive_solver. }
  assert (X7 : length b < 2 → ¬ has_at 0 sig_bmp b ∧ ¬ has_at 0 sig_png b ∧
               ¬ has_at 0 sig_jpeg b ∧ ¬ has_at 0 sig_riff b).
  { intros Hl. unfold sig_bmp, sig_png, sig_jpeg, sig_riff. rewrite !has_at_cons.
    assert (b !! 1 = None) by (apply lookup_ge_None; lia). naive_solver. }
  split_and!.
  1-6: rewrite detect_val, is_bmp_val, is_png_val, is_jpeg_val, is_webp_val;
       repeat case_bool_decide; naive_solver.
  - intros rest. rewrite detect_val, is_bmp_val, is_png_val.
    rewrite bool_decide_eq_false_2, bool_decide_eq_true_2; [done|done|].
    unfold sig_bmp, sig_png. rewrite !has_at_cons. naive_solver.
  - rewrite detect_reads.
    pose proof (in_bounds_bmp b). pose proof (in_bounds_png b).
    pose proof (in_bounds_jpeg b). pose proof (in_bounds_webp b).
    unfold in_bounds in *.
    repeat (apply Forall_app; split; [done|]; try destruct (_ b).1; try constructor).
Qed.
End SnifferFacts.

(** ** Arrays filled front to back *)

Section Fill.

(** A zero-initialised array of length [L] whose first cells hold [acc]
    (cells past the end are dropped, as typed-array stores are). *)
Definition arr_of (L : nat) (acc : bytes) : bytes :=
  take L (acc ++ replicate L 0%Z).

Lemma length_arr_of L acc : length (arr_of L acc) = L.
Proof.
  unfold arr_of. rewrite length_take, length_app, length_replicate. lia.
Qed.

Lemma arr_of_nil L : new_Uint8Array L = arr_of L [].
Proof.
  unfold arr_of, new_Uint8Array. cbn.
  by rewrite take_ge by (rewrite length_replicate; lia).
Qed.

Lemma arr_of_full L acc : length acc = L → arr_of L acc = acc.
Proof. intros <-. unfold arr_of. by rewrite take_app_length. Qed.

Lemma arr_of_split n acc : arr_of (length acc + n) acc = acc ++ replicate n 0%Z.
Proof.
  unfold arr_of. rewrite take_app_add'; [|done].
  rewrite take_replicate. do 2 f_equal. lia.
Qed.

(** The store [out[i] = v] at the first cell not yet filled. *)
Lemma insert_next L acc i v :
  i = length acc → <[i := v]> (arr_of L acc) = arr_of L (acc ++ [v]).
Proof.
  intros ->. unfold arr_of. apply list_eq. intros i.
  assert (Hlen : length (take L (acc ++ replicate L 0%Z)) = L).
  { rewrite length_take, length_app, length_replicate. lia. }
  destruct (decide (length acc < L)) as [Hl|Hl].
  - destruct (decide (i = length acc)) as [->|Hne].
    + rewrite list_lookup_insert_eq by lia.
      rewrite lookup_take_lt by lia.
      rewrite <- app_assoc. rewrite lookup_app_r by lia.
      by rewrite Nat.sub_diag.
    + rewrite list_lookup_insert_ne by done.
      destruct (decide (i < L)); [|by rewrite !lookup_take_ge by lia].
      rewrite !lookup_take_lt by lia.
      rewrite <- app_assoc.
      destruct (decide (i < length acc)).
      * by rewrite !lookup_app_l by lia.
      * rewrite !lookup_app_r by lia.
        rewrite (lookup_app_r [v]) by (simpl; lia).
        by rewrite !lookup_replicate_2 by (simpl; lia).
  - rewrite list_insert_ge by lia.
    destruct (decide (i < L)); [|by rewrite !lookup_take_ge by lia].
    rewrite !lookup_take_lt by lia.
    rewrite <- app_assoc. by rewrite !lookup_app_l by lia.
Qed.

(** Four consecutive stores, as the pixel loops make them. *)
Lemma insert_next4 L acc i v0 v1 v2 v3 :
  i = length acc →
  <[i + 3 := v3]> (<[i + 2 := v2]> (<[i + 1 := v1]> (<[i := v0]> (arr_of L acc))))
  = arr_of L (acc ++ [v0; v1; v2; v3]).
Proof.
  intros ->.
  rewrite (insert_next L acc) by done.
  rewrite (insert_next L (acc ++ [v0])) by (rewrite length_app; cbn; lia).
  rewrite (insert_next L ((acc ++ [v0]) ++ [v1])) by (rewrite !length_app; cbn; lia).
  rewrite (insert_next L (((acc ++ [v0]) ++ [v1]) ++ [v2]))
    by (rewrite !length_app; cbn; lia).
  by rewrite <- !app_assoc.
Qed.

(** A loop whose body appends [f i] leaves the concatenation of the
    chunks. *)
Lemma foldl_emit {S} (mk : bytes → S) (body : nat → S → S)
    (f : nat → bytes) (l : list nat) :
  (∀ i acc, body i (mk acc) = mk (acc ++ f i)) →
  ∀ acc, foldl (λ s i, body i s) (mk acc) l = mk (acc ++ concat (map f l)).
Proof.
  intros Hb. induction l as [|i l IH]; intros acc; cbn.
  - by rewrite app_nil_r.
  - rewrite Hb, IH. by rewrite <- app_assoc.
Qed.

(** The same when the body needs to know how far the array is filled:
    every chunk has [c] cells. *)
Lemma for_range_emit {S} (mk : bytes → S) (body : nat → S → S)
    (f : nat → bytes) (c lo n : nat) (acc0 : bytes) :
  (∀ i, length (f i) = c) →
  (∀ i acc, lo ≤ i < lo + n → length acc = length acc0 + c * (i - lo) →
            body i (mk acc) = mk (acc ++ f i)) →
  for_range lo n body (mk acc0) = mk (acc0 ++ concat (map f (seq lo n))).
Proof.
  intros Hf. unfold for_range. revert lo acc0.
  induction n as [|n IH]; intros lo acc0 Hb; cbn.
  - by rewrite app_nil_r.
  - rewrite Hb by lia. rewrite IH.
    + by rewrite <- app_assoc.
    + intros i acc Hi Hl. apply Hb; [lia|].
      rewrite Hl, length_app, Hf. nia.
Qed.

Lemma length_concat_uniform (f : nat → bytes) (c : nat) (l : list nat) :
  (∀ i, length (f i) = c) → length (concat (map f l)) = c * length l.
Proof.
  intros Hf. induction l as [|i l IH]; cbn; [lia|].
  rewrite length_app, Hf, IH. lia.
Qed.

Lemma lookup_concat_uniform (f : nat → bytes) (c : nat) (l : list nat) (k j i : nat) :
  (∀ i, length (f i) = c) → l !! k = Some i → j < c →
  concat (map f l) !! (k * c + j) = f i !! j.
Proof.
  intros Hf. revert k. induction l as [|a l IH]; intros k Hk Hj; [done|].
  destruct k as [|k]; cbn in *.
  - injection Hk as ->. by rewrite lookup_app_l by (rewrite Hf; lia).
  - rewrite lookup_app_r by (rewrite Hf; lia).
    rewrite Hf. replace (c + k * c + j - c) with (k * c + j) by lia. by apply IH.
Qed.

End Fill.

(** ** [writeBmp24] *)

Module BmpFacts.
Import Bmp.

Section Encode.
Context (rgba : bytes) (width height : nat).

(** The cursor over an output of which [acc] has been written. *)
Definition cursor (acc : bytes) : Cursor :=
  (arr_of (fileSize width height) acc, length acc).

Lemma put_cursor v acc : put v (cursor acc) = cursor (acc ++ [v]).
Proof.
  unfold put, cursor. f_equal.
  - by apply insert_next.
  - rewrite length_app. cbn. lia.
Qed.

Lemma put_pixel_cursor y x acc :
  put_pixel rgba width y x (cursor acc) = cursor (acc ++ layout_pixel rgba width y x).
Proof.
  unfold put_pixel, layout_pixel. case_bool_decide.
  all: rewrite !put_cursor, <- !app_assoc; done.
Qed.

Lemma put_row_cursor y acc :
  put_row rgba width y (cursor acc) = cursor (acc ++ layout_row rgba width y).
Proof.
  unfold put_row, layout_row, for_range.
  rewrite (foldl_emit cursor _ (layout_pixel rgba width y)) by apply put_pixel_cursor.
  rewrite (foldl_emit cursor _ (λ _, [0%Z])) by (intros; apply put_cursor).
  rewrite <- app_assoc. do 3 f_equal.
  generalize (rowPad width). intros n. generalize 0.
  induction n as [|n IH]; intros k; cbn; [done|]. by rewrite IH.
Qed.

Lemma write_headers_layout n :
  write_headers width height (replicate (54 + n) 0%Z)
  = layout_header width height ++ replicate n 0%Z.
Proof. reflexivity. Qed.

Lemma length_layout_header : length (layout_header width height) = 54.
Proof. reflexivity. Qed.

Lemma length_layout_pixel y x : length (layout_pixel rgba width y x) = 3.
Proof. unfold layout_pixel. by case_bool_decide. Qed.

Lemma length_layout_row y :
  length (layout_row rgba width y) = rowStride width + rowPad width.
Proof.
  unfold layout_row. rewrite length_app, length_replicate.
  rewrite (length_concat_uniform _ 3) by apply length_layout_pixel.
  rewrite length_seq. unfold rowStride. lia.
Qed.

Lemma length_layout : length (layout rgba width height) = fileSize width height.
Proof.
  unfold layout. rewrite length_app, length_layout_header.
  rewrite (length_concat_uniform _ (rowStride width + rowPad width))
    by apply length_layout_row.
  rewrite length_reverse, length_seq. unfold fileSize, imageSize. lia.
Qed.

(** [writeBmp24] produces exactly the layout. *)
Lemma writeBmp24_layout : writeBmp24 rgba width height = layout rgba width height.
Proof.
  unfold writeBmp24, for_down, new_Uint8Array.
  change (fileSize width height) with (54 + imageSize width height).
  rewrite write_headers_layout.
  rewrite <- (length_layout_header) at 1.
  rewrite <- arr_of_split. rewrite length_layout_header.
  change (arr_of (54 + imageSize width height) (layout_header width height), 54)
    with (cursor (layout_header width height)).
  rewrite (foldl_emit cursor _ (layout_row rgba width)) by (intros; apply put_row_cursor).
  cbn [fst cursor]. apply arr_of_full. apply length_layout.
Qed.

Lemma layout_lookup_row r y j :
  reverse (seq 0 height) !! r = Some y →
  j < rowStride width + rowPad width →
  layout rgba width height !! (54 + (r * (rowStride width + rowPad width) + j))
  = layout_row rgba width y !! j.
Proof.
  intros Hr Hj. unfold layout.
  rewrite lookup_app_r by (rewrite length_layout_header; lia).
  rewrite length_layout_header.
  replace (54 + (r * (rowStride width + rowPad width) + j) - 54)
    with (r * (rowStride width + rowPad width) + j) by lia.
  by apply lookup_concat_uniform; [apply length_layout_row|..].
Qed.

Lemma layout_row_pixel y x c :
  x < width → c < 3 →
  layout_row rgba width y !! (x * 3 + c) = layout_pixel rgba width y x !! c.
Proof.
  intros Hx Hc. unfold layout_row.
  rewrite lookup_app_l.
  - apply lookup_concat_uniform; [apply length_layout_pixel| |done].
    by apply lookup_seq.
  - rewrite (length_concat_uniform _ 3) by apply length_layout_pixel.
    rewrite length_seq. lia.
Qed.

Lemma layout_row_pad y p :
  p < rowPad width → layout_row rgba width y !! (width * 3 + p) = Some 0%Z.
Proof.
  intros Hp. unfold layout_row.
  rewrite lookup_app_r; rewrite (length_concat_uniform _ 3), length_seq
    by apply length_layout_pixel; [|lia].
  apply lookup_replicate_2. lia.
Qed.

Lemma rows_bottom_up y :
  y < height → reverse (seq 0 height) !! (height - 1 - y) = Some y.
Proof.
  intros Hy. rewrite reverse_lookup by (rewrite length_seq; lia).
  rewrite length_seq. apply lookup_seq. lia.
Qed.

End Encode.

Lemma le_value_le32 v : le_value (le32 v) = (v mod 2 ^ 32)%Z.
Proof.
  unfold le_value, le32, le_byte. cbn [foldr Z.of_nat].
  change (2 ^ 32)%Z with (256 * (256 * (256 * 256)))%Z.
  rewrite (Z.rem_mul_r v 256) by lia.
  rewrite (Z.rem_mul_r (v / 256) 256) by lia.
  rewrite (Z.rem_mul_r (v / 256 / 256) 256) by lia.
  rewrite !Z.div_div by lia.
  change (256 ^ Z.of_nat 0)%Z with 1%Z. rewrite Z.div_1_r.
  change (256 ^ Z.of_nat 1)%Z with 256%Z.
  change (256 ^ Z.of_nat 2)%Z with (256 * 256)%Z.
  change (256 ^ Z.of_nat 3)%Z with (256 * 256 * 256)%Z. lia.
Qed.

Lemma get0_lookup (arr : bytes) i : i < length arr → arr !! i = Some (get0 arr i).
Proof.
  intros Hi. unfold get0. destruct (lookup_lt_is_Some_2 arr i Hi) as [x ->]. done.
Qed.

Lemma row_multiple_of_4 width : (width * 3 + rowPad width) mod 4 = 0.
Proof.
  unfold rowPad, rowStride. zify. Z.to_euclidean_division_equations. lia.
Qed.

(** C4. For every RGBA buffer and every width and height, [writeBmp24]
    returns exactly [14 + 40 + (width*3 + pad) * height] bytes with
    [pad = (4 - width*3 % 4) % 4]; the rows are a multiple of 4 bytes long;
    the output begins with [BM], holds the file size as a little-endian
    u32 at offset 2, the pixel-data offset 54 at offset 10 and 24 bits per
    pixel at offset 28; source row [y] is emitted as output row
    [height - 1 - y] in B, G, R order, a pixel whose four bytes do not all
    lie inside the buffer being emitted as three zero bytes; and the padding
    bytes of every row are zero. *)
Theorem writeBmp24_container (rgba : bytes) (width height : nat) :
  let out := writeBmp24 rgba width height in
  let pad := (4 - (width * 3) mod 4) mod 4 in
  let row := width * 3 + pad in
  length out = 14 + 40 + row * height ∧
  row mod 4 = 0 ∧
  take 2 out = [0x42; 0x4d]%Z ∧
  le_value (take 4 (drop 2 out)) = (Z.of_nat (length out) mod 2 ^ 32)%Z ∧
  le_value (take 4 (drop 10 out)) = 54%Z ∧
  le_value (take 2 (drop 28 out)) = 24%Z ∧
  (∀ y x, y < height → x < width →
     let si := (y * width + x) * 4 in
     let o := 54 + (height - 1 - y) * row + x * 3 in
     if decide (si + 3 < length rgba)
     then out !! o = rgba !! (si + 2) ∧ out !! (o + 1) = rgba !! (si + 1) ∧
          out !! (o + 2) = rgba !! si
     else out !! o = Some 0%Z ∧ out !! (o + 1) = Some 0%Z ∧
          out !! (o + 2) = Some 0%Z) ∧
  (∀ r p, r < height → p < pad →
     out !! (54 + r * row + width * 3 + p) = Some 0%Z).
Proof.
  intros out pad row. subst out.
  assert (Hpad : pad = rowPad width) by reflexivity.
  assert (Hrow : row = rowStride width + rowPad width) by reflexivity.
  assert (Hmod : row mod 4 = 0) by apply row_multiple_of_4.
  assert (Hlt : rowPad width < 4) by (apply Nat.mod_upper_bound; lia).
  assert (Hstride : rowStride width = width * 3) by reflexivity.
  clearbody row pad. subst row pad.
  assert (Hlen : length (writeBmp24 rgba width height)
                 = 14 + 40 + (rowStride width + rowPad width) * height).
  { rewrite writeBmp24_layout, length_layout. reflexivity. }
  rewrite <- Hstride.
  split_and!.
  - done.
  - done.
  - by rewrite writeBmp24_layout.
  - rewrite Hlen, writeBmp24_layout.
    change (take 4 (drop 2 (layout rgba width height)))
      with (le32 (Z.of_nat (fileSize width height))).
    by rewrite le_value_le32.
  - by rewrite writeBmp24_layout.
  - by rewrite writeBmp24_layout.
  - intros y x Hy Hx si o. rewrite writeBmp24_layout.
    pose proof (rows_bottom_up height y Hy) as Hr.
    assert (P : ∀ c, c < 3 →
              layout rgba width height !! (o + c) = layout_pixel rgba width y x !! c).
    { intros c Hc.
      replace (o + c) with (54 + ((height - 1 - y) * (rowStride width + rowPad width)
                                  + (x * 3 + c))) by (subst o; lia).
      rewrite (layout_lookup_row _ _ _ _ y) by (done || lia).
      by apply layout_row_pixel. }
    pose proof (P 0 ltac:(lia)) as P0. rewrite Nat.add_0_r in P0.
    rewrite P0, !P by lia. unfold layout_pixel. fold si.
    case_decide.
    + rewrite bool_decide_eq_false_2 by lia.
      rewrite (get0_lookup rgba (si + 2)), (get0_lookup rgba (si + 1)),
        (get0_lookup rgba si) by (clear - H; lia).
      done.
    + rewrite bool_decide_eq_true_2 by lia. done.
  - intros r p Hr Hp. rewrite writeBmp24_layout.
    assert (Hr' : reverse (seq 0 height) !! r = Some (height - 1 - r)).
    { replace r with (height - 1 - (height - 1 - r)) at 1 by lia.
      apply rows_bottom_up. lia. }
    replace (54 + r * (rowStride width + rowPad width) + rowStride width + p)
      with (54 + (r * (rowStride width + rowPad width) + (width * 3 + p))) by lia.
    rewrite (layout_lookup_row _ _ _ _ _ _ Hr') by lia.
    by apply layout_row_pad.
Qed.

End BmpFacts.

(** ** The compositing loop *)

Module CompositorFacts.
Import Compositor.

Lemma compositeOnWhite_pixels rgba width height :
  compositeOnWhite rgba width height
  = concat (map (blended_pixel rgba) (seq 0 (width * height))).
Proof.
  unfold compositeOnWhite. rewrite arr_of_nil.
  rewrite (for_range_emit (arr_of (width * height * 4)) _ (blended_pixel rgba) 4 0 _ []).
  - cbn [app]. apply arr_of_full.
    rewrite (length_concat_uniform _ 4) by done. rewrite length_seq. lia.
  - done.
  - intros i acc Hi Hl. unfold composite_pixel, blended_pixel.
    apply insert_next4. cbn in Hl. lia.
Qed.

Lemma length_compositeOnWhite rgba width height :
  length (compositeOnWhite rgba width height) = width * height * 4.
Proof.
  rewrite compositeOnWhite_pixels, (length_concat_uniform _ 4) by done.
  rewrite length_seq. lia.
Qed.

Lemma compositeOnWhite_lookup rgba width height k c :
  k < width * height → c < 4 →
  compositeOnWhite rgba width height !! (k * 4 + c) = blended_pixel rgba k !! c.
Proof.
  intros Hk Hc. rewrite compositeOnWhite_pixels.
  apply lookup_concat_uniform; [done| |done]. by apply lookup_seq.
Qed.

Definition byte_range : list Z := Z.of_nat <$> seq 0 256.

Lemma elem_of_byte_range z : (0 ≤ z < 256)%Z → z ∈ byte_range.
Proof.
  intros Hz. unfold byte_range. apply list_elem_of_fmap.
  exists (Z.to_nat z). split; [lia|]. apply elem_of_seq. lia.
Qed.

(** The double-precision blend agrees with the exact one on all bytes. *)
Lemma blend_is_exact c a :
  (0 ≤ c < 256)%Z → (0 ≤ a < 256)%Z → blend c a = blend_exact c a.
Proof.
  intros Hc Ha.
  assert (T : forallb (λ c, forallb (λ a, Z.eqb (blend c a) (blend_exact c a))
                                    byte_range) byte_range = true)
    by (vm_compute; reflexivity).
  rewrite forallb_forall in T.
  specialize (T c (proj1 (list_elem_of_In _ _) (elem_of_byte_range c Hc))).
  rewrite forallb_forall in T.
  specialize (T a (proj1 (list_elem_of_In _ _) (elem_of_byte_range a Ha))).
  by apply Z.eqb_eq.
Qed.

Lemma blend_transparent c : (0 ≤ c < 256)%Z → blend c 0 = 255%Z.
Proof.
  intros Hc. rewrite blend_is_exact by lia.
  unfold blend_exact. rewrite Z.mul_0_r. reflexivity.
Qed.

Lemma blend_opaque c : (0 ≤ c < 256)%Z → blend c 255 = c.
Proof.
  intros Hc. rewrite blend_is_exact by lia. unfold blend_exact.
  Z.to_euclidean_division_equations. lia.
Qed.

End CompositorFacts.

(** ** [resizeNearestRGBA] *)

Module ResamplerFacts.
Import Resampler.

Section Resize.
Context (src : bytes) (srcW srcH dstW dstH : nat).

Definition sampled_row (y : nat) : bytes :=
  concat (map (sampled_pixel src srcW srcH dstW dstH y) (seq 0 dstW)).

Lemma length_sampled_row y : length (sampled_row y) = 4 * dstW.
Proof.
  unfold sampled_row. rewrite (length_concat_uniform _ 4) by done.
  by rewrite length_seq.
Qed.

Lemma resizeNearestRGBA_pixels :
  resizeNearestRGBA src srcW srcH dstW dstH = concat (map sampled_row (seq 0 dstH)).
Proof.
  unfold resizeNearestRGBA. rewrite arr_of_nil.
  rewrite (for_range_emit (arr_of (dstW * dstH * 4)) _ sampled_row (4 * dstW) 0 _ []).
  - cbn [app]. apply arr_of_full.
    rewrite (length_concat_uniform _ (4 * dstW)) by apply length_sampled_row.
    rewrite length_seq. lia.
  - apply length_sampled_row.
  - intros y acc Hy Hl. cbn in Hl.
    rewrite (for_range_emit (arr_of (dstW * dstH * 4)) _
               (sampled_pixel src srcW srcH dstW dstH y) 4 0 _ acc); [done..|].
    intros x acc' Hx Hl'. unfold copy_pixel, sampled_pixel.
    apply insert_next4. lia.
Qed.

Lemma length_resizeNearestRGBA :
  length (resizeNearestRGBA src srcW srcH dstW dstH) = dstW * dstH * 4.
Proof.
  rewrite resizeNearestRGBA_pixels.
  rewrite (length_concat_uniform _ (4 * dstW)) by apply length_sampled_row.
  rewrite length_seq. lia.
Qed.

Lemma resizeNearestRGBA_lookup y x c :
  y < dstH → x < dstW → c < 4 →
  resizeNearestRGBA src srcW srcH dstW dstH !! ((y * dstW + x) * 4 + c)
  = sampled_pixel src srcW srcH dstW dstH y x !! c.
Proof.
  intros Hy Hx Hc. rewrite resizeNearestRGBA_pixels.
  replace ((y * dstW + x) * 4 + c) with (y * (4 * dstW) + (x * 4 + c)) by lia.
  rewrite (lookup_concat_uniform _ (4 * dstW) _ _ _ y);
    [|apply length_sampled_row|by apply lookup_seq|lia].
  unfold sampled_row. apply lookup_concat_uniform; [done| |done].
  by apply lookup_seq.
Qed.

(** The sampled source coordinate lies inside the source image. *)
Lemma src_coord_lt d srcN dstN : d < dstN → 0 < srcN → src_coord d srcN dstN < srcN.
Proof.
  intros Hd Hs. unfold src_coord. apply Nat.Div0.div_lt_upper_bound. nia.
Qed.

End Resize.

Lemma too_large_max width height maxSize :
  too_large width height maxSize = true ↔ maxSize < Nat.max width height.
Proof.
  unfold too_large. rewrite orb_true_iff, !bool_decide_eq_true. lia.
Qed.

End ResamplerFacts.

(** ** Strings *)

Module UriFacts.
Import Uri.

Lemma prefix_cons a p b s :
  String.prefix (String a p) (String b s) = bool_decide (a = b) && String.prefix p s.
Proof.
  cbn. destruct (ascii_dec a b).
  - by rewrite bool_decide_eq_true_2.
  - by rewrite bool_decide_eq_false_2.
Qed.

Lemma prefix_app p s : String.prefix p s = true ↔ ∃ r, s = p +:+ r.
Proof.
  revert s. induction p as [|a p IH]; intros s.
  - split; [intros _; exists s; reflexivity|intros _; by destruct s].
  - destruct s as [|b s]; [split; [done|by intros [r ?]]|].
    rewrite prefix_cons, andb_true_iff, bool_decide_eq_true, IH. split.
    + intros [-> [r ->]]. by exists r.
    + intros [r [= -> ->]]. eauto.
Qed.

Lemma includes_cons p c s :
  includes p (String c s) = String.prefix p (String c s) || includes p s.
Proof. done. Qed.


Lemma has_hint_cons c s : has_hint (String c s) = hint_here (String c s) || has_hint s.
Proof.
  unfold has_hint, hint_here. rewrite !includes_cons.
  generalize (String.prefix "format:webp" (String c s)),
    (String.prefix "format=webp" (String c s)).
  intros [] []; cbn; try done. by destruct (includes _ s).
Qed.

Lemma hint_here_inv s :
  hint_here s = true →
  ∃ r, (s = "format:webp" +:+ r ∨ s = "format=webp" +:+ r) ∧ sdrop 11 s = r.
Proof.
  unfold hint_here. rewrite orb_true_iff, !prefix_app.
  intros [[r ->]|[r ->]]; exists r; eauto.
Qed.

Lemma replace_hint_here c s :
  hint_here (String c s) = true →
  replace_hint (String c s) = "format:jpeg" +:+ replace_hint (sdrop 10 s).
Proof. intros H. simp replace_hint. by rewrite H. Qed.

Lemma replace_hint_copy c s :
  hint_here (String c s) = false →
  replace_hint (String c s) = String c (replace_hint s).
Proof. intros H. simp replace_hint. by rewrite H. Qed.

(** A run of characters other than [f] at the front of the result was at
    the front of the input. *)
Lemma prefix_replace_back p s :
  includes "f" p = false →
  String.prefix p (replace_hint s) = true → String.prefix p s = true.
Proof.
  revert s. induction p as [|a p IH]; intros s Hf; [intros _; by destruct s|].
  rewrite includes_cons, orb_false_iff in Hf. destruct Hf as [Ha Hf].
  destruct s as [|c s]; [by simp replace_hint|].
  destruct (hint_here (String c s)) eqn:Hh.
  - rewrite replace_hint_here by done.
    change ("format:jpeg" +:+ ?r) with (String "f" ("ormat:jpeg" +:+ r)).
    rewrite prefix_cons. intros [->%bool_decide_eq_true _]%andb_true_iff.
    rewrite prefix_cons, bool_decide_eq_true_2 in Ha by done. by destruct p.
  - rewrite replace_hint_copy by done. rewrite !prefix_cons, !andb_true_iff.
    intros [? ?]. split; [done|]. by apply IH.
Qed.

(** Induction along the scan of [replace_hint]. *)
Lemma replace_hint_scan (P : string → string → Prop) :
  P "" "" →
  (∀ c s, hint_here (String c s) = true →
          P (sdrop 10 s) (replace_hint (sdrop 10 s)) →
          P (String c s) ("format:jpeg" +:+ replace_hint (sdrop 10 s))) →
  (∀ c s, hint_here (String c s) = false →
          P s (replace_hint s) → P (String c s) (String c (replace_hint s))) →
  ∀ s, P s (replace_hint s).
Proof.
  intros H0 Hh Hc s.
  remember (String.length s) as n eqn:Hn. revert s Hn.
  induction n as [n IH] using lt_wf_ind. intros [|c s] ->.
  - by simp replace_hint.
  - destruct (hint_here (String c s)) eqn:E.
    + rewrite replace_hint_here by done. apply Hh; [done|].
      apply (IH (String.length (sdrop 10 s))); [|done].
      pose proof (length_sdrop 10 s). cbn [String.length]. lia.
    + rewrite replace_hint_copy by done. apply Hc; [done|].
      apply (IH (String.length s)); [|done]. cbn [String.length]. lia.
Qed.

Lemma prefix_f_cons p c s :
  String.prefix (String "f" p) (String c s) = true →
  c = "f"%char ∧ String.prefix p s = true.
Proof. rewrite prefix_cons, andb_true_iff, bool_decide_eq_true. naive_solver. Qed.

(** The rewritten reference carries no hint any more. *)
Lemma replace_hint_no_hint s : has_hint (replace_hint s) = false.
Proof.
  apply (replace_hint_scan (λ _ r, has_hint r = false)); [done|..].
  - intros c s' _. generalize (replace_hint (sdrop 10 s')). intros r Hr.
    unfold has_hint in *. exact Hr.
  - intros c s' Hh IH. rewrite has_hint_cons. apply orb_false_iff. split; [|done].
    apply not_true_is_false. intros Hp. apply not_true_iff_false in Hh. apply Hh.
    unfold hint_here in *. apply orb_true_iff in Hp. apply orb_true_iff.
    destruct Hp as [Hp|Hp]; [left|right].
    all: apply prefix_f_cons in Hp as [-> Hp].
    all: rewrite prefix_cons, bool_decide_eq_true_2 by done.
    all: by apply prefix_replace_back.
Qed.



(** A scheme such as [https://] in front of the reference stays in front. *)
Lemma replace_hint_keeps_prefix p s :
  includes "f" p = false →
  String.prefix p s = true → String.prefix p (replace_hint s) = true.
Proof.
  revert s. induction p as [|a p IH]; intros s Hf; [intros _; by destruct (replace_hint s)|].
  rewrite includes_cons, orb_false_iff in Hf. destruct Hf as [Ha Hf].
  destruct s as [|c s]; [done|].
  rewrite prefix_cons, andb_true_iff, bool_decide_eq_true. intros [<- Hp].
  rewrite replace_hint_copy.
  - rewrite prefix_cons, bool_decide_eq_true_2 by done. by apply IH.
  - unfold hint_here. destruct (ascii_dec a "f") as [->|Hne].
    + rewrite prefix_cons, bool_decide_eq_true_2 in Ha by done. by destruct p.
    + rewrite !prefix_cons. rewrite !bool_decide_eq_false_2 by done. done.
Qed.





End UriFacts.

(** ** The pipeline *)

Module PipelineFacts.
Import Sniffer Uri Pipeline.

Ltac unfold_M :=
  unfold mbind, M_bind, mret, M_ret, try_catch, throw, diverge.

Section WithEnv.
Context (env : Env).

(** What [toMediaPath] does, by the class of the reference. *)
Lemma toMediaPath_cases uri w :
  toMediaPath env uri w =
    if String.eqb uri "" then (Ret None, w)
    else if startsWith "file://" uri || startsWith "/" uri then
      (Ret (Some ("file://" +:+ strip_file_scheme uri)), w)
    else if startsWith "http://" uri || startsWith "https://" uri then
      let ext := default "jpg" (ext_match (before "#" (before "?" uri))) in
      let dest := cache_file env (Date_now_at env (events w)) ext in
      match download_at env (S (events w)) uri with
      | Some body =>
          (Ret (Some ("file://" +:+ dest)),
           {| files := <[dest := body]> (files w); events := S (S (events w));
              fetched := fetched w ++ [uri] |})
      | None =>
          (Ret None,
           {| files := files w; events := S (S (events w));
              fetched := fetched w ++ [uri] |})
      end
    else (Ret None, w).
Proof.
  unfold toMediaPath. unfold_M.
  destruct (String.eqb uri ""); [done|].
  destruct (startsWith "file://" uri || startsWith "/" uri); [done|].
  destruct (startsWith "http://" uri || startsWith "https://" uri); [|done].
  unfold Date_now, RNFS_downloadFile. cbn.
  by destruct (download_at env (S (events w)) uri).
Qed.

(** [toMediaPath] catches everything: it always returns. *)
Lemma toMediaPath_returns uri w : ∃ r w', toMediaPath env uri w = (Ret r, w').
Proof.
  rewrite toMediaPath_cases.
  repeat (case_match; eauto).
Qed.

(** A resolved reference is a [file://] URI. *)
Lemma toMediaPath_file_uri uri w l w' :
  toMediaPath env uri w = (Ret (Some l), w') → ∃ path, l = "file://" +:+ path.
Proof.
  rewrite toMediaPath_cases.
  repeat case_match; intros [= <- <-]; eauto.
Qed.

Lemma strip_file_uri path : strip_file_scheme ("file://" +:+ path) = path.
Proof. by destruct path. Qed.

(** What [encode_and_write] does. *)
Lemma encode_and_write_run d maxSize w :
  encode_and_write env d maxSize w =
    match resize_if_large (or_placeholder d) (default 1024 maxSize) with
    | None => (Throw, w)
    | Some (width, height, rgba) =>
        let outPath := cache_file env (Date_now_at env (events w)) "bmp" in
        if writable_at env (S (events w)) outPath then
          (Ret (Some ("file://" +:+ outPath)),
           {| files := <[outPath := Bmp.writeBmp24 rgba width height]> (files w);
              events := S (S (events w)); fetched := fetched w |})
        else
          (Throw, {| files := files w; events := S (S (events w));
                     fetched := fetched w |})
    end.
Proof.
  unfold encode_and_write.
  destruct (resize_if_large _ _) as [[[width height] rgba]|]; [|done].
  unfold_M. unfold Date_now, RNFS_writeFile, RNFS_stat. cbn.
  destruct (writable_at env _ _); [|done]. cbn.
  by rewrite lookup_insert_eq.
Qed.

(** The reference resolves to the local URI [local], whose file holds the
    bytes [b]. *)
Definition resolves_to (uri : string) (w : World) (local : string) (b : bytes)
    (w1 : World) : Prop :=
  toMediaPath env uri w = (Ret (Some local), w1) ∧
  files w1 !! strip_file_scheme local = Some b.

Lemma ensure_resolved d uri m w local b w1 :
  resolves_to uri w local b w1 →
  ensureBmpForMedia env (S d) uri m w
  = try_catch (convert env (λ u, ensureBmpForMedia env d u m) uri m local b)
      (mret None) w1.
Proof.
  intros [H1 H2]. cbn [ensureBmpForMedia]. unfold_M. rewrite H1.
  unfold RNFS_readFile. by rewrite H2.
Qed.

Lemma ensure_unresolved d uri m w w1 :
  toMediaPath env uri w = (Ret None, w1) →
  ensureBmpForMedia env (S d) uri m w = (Ret None, w1).
Proof. intros H1. cbn [ensureBmpForMedia]. unfold_M. by rewrite H1. Qed.

Lemma ensure_unreadable d uri m w local w1 :
  toMediaPath env uri w = (Ret (Some local), w1) →
  files w1 !! strip_file_scheme local = None →
  ensureBmpForMedia env (S d) uri m w = (Ret None, w1).
Proof.
  intros H1 H2. cbn [ensureBmpForMedia]. unfold_M. rewrite H1.
  unfold RNFS_readFile. by rewrite H2.
Qed.

Lemma convert_png self uri m local b w :
  detectMimeFromBytes b = image_png →
  convert env self uri m local b w
  = (d ← png_block env b; encode_and_write env d m) w.
Proof.
  intros H. unfold convert. rewrite H.
  rewrite bool_decide_eq_false_2 by done. unfold_M.
  by destruct (png_block env b w) as [[?| |] ?].
Qed.

Lemma convert_jpeg self uri m local b w :
  detectMimeFromBytes b = image_jpeg →
  convert env self uri m local b w
  = (d ← jpeg_block env b; encode_and_write env d m) w.
Proof.
  intros H. unfold convert. rewrite H.
  rewrite bool_decide_eq_false_2 by done. unfold_M.
  by destruct (jpeg_block env b w) as [[?| |] ?].
Qed.

(** *** Computations that settle, and computations that download nothing *)

(** [m] returns or throws: it does not run out of recursion depth. *)
Definition settles {A} (m : M A) : Prop := ∀ w, (m w).1 ≠ Diverge.

(** [m] hands no URL to [RNFS.downloadFile]. *)
Definition quiet {A} (m : M A) : Prop := ∀ w, fetched (m w).2 = fetched w.

Lemma settles_ret {A} (a : A) : settles (mret a).
Proof. by intros w. Qed.

Lemma settles_throw {A} : settles (@throw A).
Proof. by intros w. Qed.

Lemma settles_bind {A B} (m : M A) (f : A → M B) :
  settles m → (∀ a, settles (f a)) → settles (m ≫= f).
Proof.
  intros Hm Hf w. specialize (Hm w). unfold_M.
  destruct (m w) as [[a| |] w']; [apply Hf|done..].
Qed.

Lemma settles_try_catch {A} (m h : M A) :
  settles m → settles h → settles (try_catch m h).
Proof.
  intros Hm Hh w. specialize (Hm w). unfold try_catch.
  destruct (m w) as [[a| |] w']; [done|apply Hh|done].
Qed.

Lemma quiet_ret {A} (a : A) : quiet (mret a).
Proof. by intros w. Qed.

Lemma quiet_throw {A} : quiet (@throw A).
Proof. by intros w. Qed.

Lemma quiet_bind {A B} (m : M A) (f : A → M B) :
  quiet m → (∀ a, quiet (f a)) → quiet (m ≫= f).
Proof.
  intros Hm Hf w. specialize (Hm w). unfold_M.
  destruct (m w) as [[a| |] w']; [|done..].
  cbn in Hm. by rewrite Hf.
Qed.

Lemma quiet_try_catch {A} (m h : M A) : quiet m → quiet h → quiet (try_catch m h).
Proof.
  intros Hm Hh w. specialize (Hm w). unfold try_catch.
  destruct (m w) as [[a| |] w']; [done| |done].
  cbn in Hm. by rewrite Hh.
Qed.

Lemma settles_readFile path : settles (RNFS_readFile path).
Proof. intros w. unfold RNFS_readFile. by case_match. Qed.

Lemma quiet_readFile path : quiet (RNFS_readFile path).
Proof. intros w. unfold RNFS_readFile. by case_match. Qed.

Lemma settles_toMediaPath uri : settles (toMediaPath env uri).
Proof. intros w. by destruct (toMediaPath_returns uri w) as (r & w' & ->). Qed.

Lemma settles_png_block b : settles (png_block env b).
Proof. intros w. unfold png_block. by repeat case_match. Qed.

Lemma quiet_png_block b : quiet (png_block env b).
Proof. intros w. unfold png_block. by repeat case_match. Qed.

Lemma settles_jpeg_block b : settles (jpeg_block env b).
Proof. intros w. unfold jpeg_block. by repeat case_match. Qed.

Lemma quiet_jpeg_block b : quiet (jpeg_block env b).
Proof. intros w. unfold jpeg_block. by repeat case_match. Qed.

Lemma settles_unknown_block b : settles (unknown_block env b).
Proof.
  unfold unknown_block.
  auto using settles_try_catch, settles_png_block, settles_jpeg_block, settles_ret.
Qed.

Lemma quiet_unknown_block b : quiet (unknown_block env b).
Proof.
  unfold unknown_block.
  auto using quiet_try_catch, quiet_png_block, quiet_jpeg_block, quiet_ret.
Qed.

Lemma settles_encode_and_write d m : settles (encode_and_write env d m).
Proof. intros w. rewrite encode_and_write_run. cbv zeta. by repeat case_match. Qed.

Lemma quiet_encode_and_write d m : quiet (encode_and_write env d m).
Proof. intros w. rewrite encode_and_write_run. cbv zeta. by repeat case_match. Qed.

(** *** The WebP block *)

Lemma webp_block_no_hint self uri w :
  has_hint uri = false → webp_block env self uri w = (Ret (inr placeholder), w).
Proof. intros H. unfold webp_block, try_catch. by rewrite H. Qed.

(** The block calls [self] on the rewritten reference only. *)
Lemma webp_block_ext self self' uri w :
  (∀ w0, self (replace_hint uri) w0 = self' (replace_hint uri) w0) →
  webp_block env self uri w = webp_block env self' uri w.
Proof.
  intros H. unfold webp_block, try_catch. unfold_M.
  destruct (has_hint uri); [|done].
  destruct (toMediaPath env (replace_hint uri) w) as [[[l|]| |] w1]; try done.
  unfold RNFS_readFile. destruct (files w1 !! _); [|done].
  destruct (_ || _); [|done]. by rewrite H.
Qed.

Lemma settles_webp_block self uri :
  settles (self (replace_hint uri)) → settles (webp_block env self uri).
Proof.
  intros H. unfold webp_block.
  apply settles_try_catch; [|apply settles_ret].
  case_match; [|apply settles_ret].
  apply settles_bind; [apply settles_toMediaPath|]. intros altLocal.
  apply settles_bind.
  - destruct altLocal; [|apply settles_ret].
    apply settles_bind; [apply settles_readFile|]. intros b.
    case_match; [|apply settles_ret].
    apply settles_bind; [done|]. intros. apply settles_ret.
  - intros [r|]; apply settles_ret.
Qed.

(** *** [convert] and [ensureBmpForMedia] *)

Lemma convert_ext self self' uri m local b w :
  (∀ w0, self (replace_hint uri) w0 = self' (replace_hint uri) w0) →
  convert env self uri m local b w = convert env self' uri m local b w.
Proof.
  intros H. unfold convert. case_bool_decide; [done|].
  destruct (detectMimeFromBytes b); try done.
  unfold mbind, M_bind. by rewrite (webp_block_ext self self').
Qed.

Lemma convert_no_hint self self' uri m local b w :
  has_hint uri = false →
  convert env self uri m local b w = convert env self' uri m local b w.
Proof.
  intros H. unfold convert. case_bool_decide; [done|].
  destruct (detectMimeFromBytes b); try done.
  unfold mbind, M_bind. by rewrite !webp_block_no_hint.
Qed.

Lemma settles_convert self uri m local b :
  settles (self (replace_hint uri)) → settles (convert env self uri m local b).
Proof.
  intros H. unfold convert. case_bool_decide; [apply settles_ret|].
  apply settles_bind.
  - destruct (detectMimeFromBytes b).
    all: try (apply settles_bind; [|intros; apply settles_ret]).
    all: auto using settles_png_block, settles_jpeg_block, settles_unknown_block,
           settles_webp_block.
  - intros [r|d]; [apply settles_ret|apply settles_encode_and_write].
Qed.


Lemma ensure_unfold d uri m :
  ensureBmpForMedia env (S d) uri m =
  try_catch
    (local ← toMediaPath env uri;
     match local with
     | None => mret None
     | Some local =>
         b ← RNFS_readFile (strip_file_scheme local);
         convert env (λ u, ensureBmpForMedia env d u m) uri m local b
     end)
    (mret None).
Proof. done. Qed.

Lemma settles_ensure_S d uri m :
  settles (ensureBmpForMedia env d (replace_hint uri) m) →
  settles (ensureBmpForMedia env (S d) uri m).
Proof.
  intros H. rewrite ensure_unfold.
  apply settles_try_catch; [|apply settles_ret].
  apply settles_bind; [apply settles_toMediaPath|]. intros [local|]; [|apply settles_ret].
  apply settles_bind; [apply settles_readFile|]. intros b.
  by apply settles_convert.
Qed.

(** A reference without a hint never recurses: any depth acts as depth 1. *)
Lemma ensure_no_hint_depth d uri m w :
  has_hint uri = false →
  ensureBmpForMedia env (S d) uri m w = ensureBmpForMedia env 1 uri m w.
Proof.
  intros H. rewrite !ensure_unfold. unfold try_catch. unfold_M.
  destruct (toMediaPath env uri w) as [[[local|]| |] w1]; try done.
  destruct (RNFS_readFile _ w1) as [[b| |] w2]; try done.
  by rewrite (convert_no_hint _ (λ u, ensureBmpForMedia env 0 u m)).
Qed.

Lemma settles_ensure_no_hint d uri m :
  has_hint uri = false → settles (ensureBmpForMedia env (S d) uri m).
Proof.
  intros H w. rewrite ensure_unfold. revert w.
  apply settles_try_catch; [|apply settles_ret].
  apply settles_bind; [apply settles_toMediaPath|]. intros [local|]; [|apply settles_ret].
  apply settles_bind; [apply settles_readFile|]. intros b w.
  rewrite (convert_no_hint _ (λ _, mret None)) by done. revert w.
  apply settles_convert, settles_ret.
Qed.

(** One nested call is all [ensureBmpForMedia] ever makes. *)
Lemma ensure_depth_2 d uri m w :
  ensureBmpForMedia env (S (S d)) uri m w = ensureBmpForMedia env 2 uri m w.
Proof.
  rewrite !ensure_unfold. unfold try_catch. unfold_M.
  destruct (toMediaPath env uri w) as [[[local|]| |] w1]; try done.
  destruct (RNFS_readFile _ w1) as [[b| |] w2]; try done.
  rewrite (convert_ext _ (λ u, ensureBmpForMedia env 1 u m)); [done|].
  intros w0. apply ensure_no_hint_depth, UriFacts.replace_hint_no_hint.
Qed.

Lemma ensure_returns d uri m w :
  ∃ r w', ensureBmpForMedia env (S (S d)) uri m w = (Ret r, w').
Proof.
  pose proof (settles_ensure_S (S d) uri m
                (settles_ensure_no_hint d _ m (UriFacts.replace_hint_no_hint uri)) w) as Hs.
  rewrite ensure_unfold in Hs |- *. revert Hs. unfold try_catch.
  match goal with |- context [let (_, _) := ?x in _] => destruct x as [[r| |] w'] end;
    [eauto..|done].
Qed.

(** The placeholder keeps its size whatever [maxSize] is. *)
Lemma placeholder_size maxSize :
  resize_if_large (1, 1, white_pixel) maxSize = Some (1, 1, white_pixel).
Proof.
  unfold resize_if_large, Resampler.too_large.
  destruct maxSize as [|n].
  - vm_compute. reflexivity.
  - rewrite !bool_decide_eq_false_2 by lia. done.
Qed.

(** *** The URLs downloaded *)







(** [uri.startsWith("http://") || uri.startsWith("https://")] *)
Definition is_http (uri : string) : bool :=
  startsWith "http://" uri || startsWith "https://" uri.

Lemma toMediaPath_http uri w :
  is_http uri = true →
  toMediaPath env uri w =
    let ext := default "jpg" (ext_match (before "#" (before "?" uri))) in
    let dest := cache_file env (Date_now_at env (events w)) ext in
    match download_at env (S (events w)) uri with
    | Some body =>
        (Ret (Some ("file://" +:+ dest)),
         {| files := <[dest := body]> (files w); events := S (S (events w));
            fetched := fetched w ++ [uri] |})
    | None =>
        (Ret None,
         {| files := files w; events := S (S (events w));
            fetched := fetched w ++ [uri] |})
    end.
Proof.
  intros H. rewrite toMediaPath_cases. unfold is_http in H. rewrite H.
  unfold startsWith in *. rewrite orb_true_iff, !UriFacts.prefix_app in H.
  by destruct H as [[r ->]|[r ->]].
Qed.



(** Every value [convert] returns is the resolved [local], a value the
    recursive call returned, or the [file://] URI of the file written. *)
Lemma convert_returns_some self uri m local b w p w' :
  convert env self uri m local b w = (Ret (Some p), w') →
  p = local ∨
  (∃ w0 w1, self (replace_hint uri) w0 = (Ret (Some p), w1)) ∨
  (∃ out, p = "file://" +:+ out).
Proof.
  unfold convert, webp_block, unknown_block, png_block, jpeg_block, RNFS_readFile.
  unfold_M. intros H.
  repeat first
    [ rewrite encode_and_write_run in H
    | progress simplify_eq/=
    | case_match ];
    eauto 10.
Qed.

Lemma convert_unknown self uri m local b w :
  detectMimeFromBytes b = application_octet_stream →
  convert env self uri m local b w
  = (d ← unknown_block env b; encode_and_write env d m) w.
Proof.
  intros H. unfold convert. rewrite H.
  rewrite bool_decide_eq_false_2 by done. unfold_M.
  by destruct (unknown_block env b w) as [[?| |] ?].
Qed.

End WithEnv.


(** The file [writeBmp24] makes of the white pixel, byte by byte. *)
Lemma white_bmp_bytes :
  Bmp.writeBmp24 white_pixel 1 1 =
  [0x42; 0x4d; 58; 0; 0; 0; 0; 0; 0; 0; 54; 0; 0; 0;
   40; 0; 0; 0; 1; 0; 0; 0; 1; 0; 0; 0; 1; 0; 24; 0; 0; 0; 0; 0;
   4; 0; 0; 0; 19; 11; 0; 0; 19; 11; 0; 0; 0; 0; 0; 0; 0; 0; 0; 0;
   255; 255; 255; 0]%Z.
Proof. reflexivity. Qed.

(** One invocation on a remote reference is its three segments in turn. *)
Lemma ensure_in_segments env d uri m w :
  is_http uri = true →
  ensureBmpForMedia env (S d) uri m w
  = (dest ← Together.remote_begin env uri;
     local ← Together.remote_finish env uri dest;
     Together.resume env d uri m local) w.
Proof.
  intros Hu. rewrite ensure_unfold.
  unfold Together.remote_begin, Together.remote_finish, Together.resume.
  unfold try_catch. unfold_M. rewrite toMediaPath_http by done. cbv zeta.
  unfold Date_now, RNFS_downloadFile. cbn [events].
  fold (Names.download_ext uri).
  destruct (download_at env (S (events w)) uri); done.
Qed.



(** The sibling path of C1: for bytes of unknown format, both decoders
    throwing is absorbed by the placeholder. *)
Lemma unknown_decode_failure_absorbed (env : Env) (d : nat) (uri : string)
    (m : option nat) (w : World) (local : string) (b : bytes) (w1 : World) :
  resolves_to env uri w local b w1 →
  detectMimeFromBytes b = application_octet_stream →
  UPNG_decode env b = None → JPEG_decode env b = None →
  ensureBmpForMedia env (S d) uri m w
  = try_catch (encode_and_write env placeholder m) (mret None) w1.
Proof.
  intros Hr Hm Hp Hj. rewrite (ensure_resolved _ _ _ _ _ _ _ _ Hr).
  unfold try_catch at 1 2. unfold convert. rewrite Hm, bool_decide_eq_false_2 by done.
  unfold mbind, M_bind, unknown_block, try_catch, png_block, jpeg_block.
  by rewrite Hp, Hj.
Qed.

(** C1 (the code at a failing input). When the bytes are classified PNG and
    [UPNG.decode] throws on them, or are classified JPEG and [JPEG.decode]
    throws, [ensureBmpForMedia] returns [null]: no fallback tier runs. *)
Theorem classified_decode_failure_returns_null
    (env : Env) (d : nat) (uri : string) (m : option nat) (w : World)
    (local : string) (b : bytes) (w1 : World) :
  resolves_to env uri w local b w1 →
  (detectMimeFromBytes b = image_png ∧ UPNG_decode env b = None) ∨
  (detectMimeFromBytes b = image_jpeg ∧ JPEG_decode env b = None) →
  ensureBmpForMedia env (S d) uri m w = (Ret None, w1).
Proof.
  intros Hr [[Hm Hd]|[Hm Hd]]; rewrite (ensure_resolved _ _ _ _ _ _ _ _ Hr).
  - unfold try_catch. rewrite convert_png by done.
    unfold_M. unfold png_block. by rewrite Hd.
  - unfold try_catch. rewrite convert_jpeg by done.
    unfold_M. unfold jpeg_block. by rewrite Hd.
Qed.

(** The sample of C1: a file with the JPEG signature on which the decoder
    throws. *)
Lemma classified_decode_failure_sample :
  ensureBmpForMedia Samples.ticking 1 "/sdcard/broken.jpg" None Samples.start
  = (Ret None, Samples.start).
Proof.
  apply (classified_decode_failure_returns_null Samples.ticking 0
           "/sdcard/broken.jpg" None Samples.start
           "file:///sdcard/broken.jpg" Samples.broken_jpeg Samples.start).
  - split; vm_compute; reflexivity.
  - right. split; vm_compute; reflexivity.
Defined.

(** The same for the PNG signature. *)
Lemma classified_png_failure_run :
  ensureBmpForMedia Samples.ticking 1 "/sdcard/broken.png" None Samples.start
  = (Ret None, Samples.start).
Proof. vm_compute. reflexivity. Qed.

(** C2 (as amended). Whatever the reference and the world, one nested
    call is the most [ensureBmpForMedia] makes: with room for the call and
    one retry it returns, and more room changes nothing; the rewritten
    reference carries no hint, so the retry cannot retry again. When the
    bytes are classified WebP and the reference carries no hint, the call
    neither throws nor hangs: if the final write succeeds it returns the
    [file://] URI of a file holding the 58 bytes listed, which are the BMP
    encoding of the one white pixel [255,255,255,255] (signature [BM],
    1x1, 24 bits, pixel bytes [255,255,255] and one byte of padding); if
    the write fails it returns [null] and no file is written. *)
Theorem webp_retry_is_bounded (env : Env) (d : nat) (uri : string)
    (m : option nat) (w : World) :
  let white_bmp : bytes :=
    [0x42; 0x4d; 58; 0; 0; 0; 0; 0; 0; 0; 54; 0; 0; 0;
     40; 0; 0; 0; 1; 0; 0; 0; 1; 0; 0; 0; 1; 0; 24; 0; 0; 0; 0; 0;
     4; 0; 0; 0; 19; 11; 0; 0; 19; 11; 0; 0; 0; 0; 0; 0; 0; 0; 0; 0;
     255; 255; 255; 0]%Z in
  (∃ r w', ensureBmpForMedia env (S (S d)) uri m w = (Ret r, w') ∧
           ensureBmpForMedia env 2 uri m w = (Ret r, w')) ∧
  has_hint (replace_hint uri) = false ∧
  Bmp.writeBmp24 [255; 255; 255; 255]%Z 1 1 = white_bmp ∧
  length white_bmp = 58 ∧
  detectMimeFromBytes white_bmp = image_bmp ∧
  (∀ local b w1,
     resolves_to env uri w local b w1 →
     detectMimeFromBytes b = image_webp →
     has_hint uri = false →
     let outPath := cache_file env (Date_now_at env (events w1)) "bmp" in
     if writable_at env (S (events w1)) outPath then
       ∃ w', ensureBmpForMedia env (S (S d)) uri m w
             = (Ret (Some ("file://" +:+ outPath)), w') ∧
             files w' !! outPath = Some white_bmp
     else
       ∃ w', ensureBmpForMedia env (S (S d)) uri m w = (Ret None, w') ∧
             files w' = files w1).
Proof.
  intros white_bmp. split_and!.
  - destruct (ensure_returns env d uri m w) as (r & w' & E).
    exists r, w'. split; [done|]. by rewrite <- ensure_depth_2 with (d := d).
  - apply UriFacts.replace_hint_no_hint.
  - reflexivity.
  - reflexivity.
  - reflexivity.
  - intros local b w1 Hr Hm Hh outPath.
    rewrite (ensure_resolved _ _ _ _ _ _ _ _ Hr).
    unfold try_catch, convert. rewrite Hm, bool_decide_eq_false_2 by done.
    unfold mbind, M_bind. rewrite webp_block_no_hint by done.
    rewrite encode_and_write_run.
    change (or_placeholder placeholder) with (1, 1, white_pixel).
    rewrite placeholder_size. cbv zeta. fold outPath.
    destruct (writable_at env (S (events w1)) outPath).
    + eexists. split; [reflexivity|]. cbn [files].
      rewrite white_bmp_bytes. apply lookup_insert_eq.
    + eexists. split; reflexivity.
Qed.

(** The claim of C2 fails: for a WebP file whose name carries no hint, on
    a disk that rejects the write, the call returns [null] and not a path;
    no decoder takes part. *)
Lemma webp_write_failure_returns_null :
  detectMimeFromBytes Samples.webp_file = image_webp ∧
  has_hint "/sdcard/pic.webp" = false ∧
  ∃ w', ensureBmpForMedia Samples.disk_full 2 "/sdcard/pic.webp" None
          Samples.webp_on_disk = (Ret None, w') ∧
        files w' = files Samples.webp_on_disk.
Proof. split_and!; [reflexivity..|]. eexists. split; vm_compute; reflexivity. Qed.

(** A WebP download without a hint ends in the 58-byte white BMP. *)
Lemma webp_without_hint_run :
  let r := ensureBmpForMedia Samples.ticking 2 "https://cdn.example/dog.webp"
             None Samples.start in
  r.1 = Ret (Some "file:///cache/llm_img_1700000000002.bmp") ∧
  files r.2 !! "/cache/llm_img_1700000000002.bmp"
    = Some (Bmp.writeBmp24 white_pixel 1 1) ∧
  fetched r.2 = ["https://cdn.example/dog.webp"]%string.
Proof. split_and!; vm_compute; reflexivity. Qed.

(** C5. After a successful PNG decode (a frame of [width * height * 4]
    bytes), of bytes classified PNG or tried as PNG because their format
    is unknown, the buffer handed on to the size check and the encoder is
    the frame composited onto white, whatever its alpha values: each output
    R, G, B is [(c * a + 255 * (255 - a)) / 255] rounded to the nearest
    integer, for the source channel [c] and alpha [a] of the pixel, the
    output alpha is 255, and a pixel of alpha 0 becomes
    [255,255,255,255]. *)
Theorem png_composited_onto_white (env : Env) (d : nat) (uri : string)
    (m : option nat) (w : World) (local : string) (b : bytes) (w1 : World)
    (width height : nat) (frame : bytes) (rest : list bytes) :
  resolves_to env uri w local b w1 →
  detectMimeFromBytes b = image_png ∨
    detectMimeFromBytes b = application_octet_stream →
  UPNG_decode env b = Some (width, height, frame :: rest) →
  length frame = width * height * 4 →
  Forall (λ z, (0 ≤ z < 256)%Z) frame →
  let composited := Compositor.compositeOnWhite frame width height in
  ensureBmpForMedia env (S d) uri m w
    = try_catch (encode_and_write env (width, height, Some composited) m)
        (mret None) w1 ∧
  length composited = width * height * 4 ∧
  ∀ k, k < width * height →
    let a := get0 frame (k * 4 + 3) in
    (∀ c, c < 3 →
       composited !! (k * 4 + c)
       = Some (Compositor.blend_exact (get0 frame (k * 4 + c)) a)) ∧
    composited !! (k * 4 + 3) = Some 255%Z ∧
    (a = 0%Z → ∀ c, c < 4 → composited !! (k * 4 + c) = Some 255%Z).
Proof.
  intros Hr Hm Hd Hlen Hbytes composited.
  assert (Hb : ∀ i, (0 ≤ get0 frame i < 256)%Z).
  { intros i. unfold get0. destruct (frame !! i) as [z|] eqn:E; [|done].
    by apply (Forall_lookup_1 _ _ _ _ Hbytes E). }
  assert (Hpx : ∀ k c, k < width * height → c < 3 →
            composited !! (k * 4 + c)
            = Some (Compositor.blend (get0 frame (k * 4 + c)) (get0 frame (k * 4 + 3)))).
  { intros k c Hk Hc. subst composited.
    rewrite CompositorFacts.compositeOnWhite_lookup by lia.
    unfold Compositor.blended_pixel. replace (4 * k) with (k * 4) by lia.
    destruct c as [|[|[|c]]]; [by rewrite ?Nat.add_0_r..|lia]. }
  split_and!.
  - rewrite (ensure_resolved _ _ _ _ _ _ _ _ Hr). unfold try_catch at 1 2.
    destruct Hm as [Hm|Hm].
    + rewrite convert_png by done. unfold mbind, M_bind, png_block.
      rewrite Hd. cbn [head]. by rewrite decide_True by done.
    + rewrite convert_unknown by done.
      unfold mbind, M_bind, unknown_block, try_catch, png_block.
      rewrite Hd. cbn [head]. by rewrite decide_True by done.
  - apply CompositorFacts.length_compositeOnWhite.
  - intros k Hk a. split_and!.
    + intros c Hc. rewrite Hpx by done.
      by rewrite CompositorFacts.blend_is_exact.
    + subst composited. rewrite CompositorFacts.compositeOnWhite_lookup by lia. done.
    + intros Ha c Hc. destruct (decide (c = 3)) as [->|Hne].
      * subst composited. by rewrite CompositorFacts.compositeOnWhite_lookup by lia.
      * rewrite Hpx by lia. fold a. rewrite Ha.
        by rewrite CompositorFacts.blend_transparent.
Qed.

(** The sample of C5: a PNG of one fully transparent pixel [10,20,30,0]
    reaches the encoder as the white pixel. *)
Lemma png_composited_onto_white_sample :
  ensureBmpForMedia Samples.ticking 1 "/sdcard/clear.png" None Samples.start
  = try_catch
      (encode_and_write Samples.ticking
         (1, 1, Some (Compositor.compositeOnWhite [10; 20; 30; 0]%Z 1 1)) None)
      (mret None) Samples.start ∧
  Compositor.compositeOnWhite [10; 20; 30; 0]%Z 1 1 = [255; 255; 255; 255]%Z.
Proof.
  destruct (png_composited_onto_white Samples.ticking 0 "/sdcard/clear.png" None
              Samples.start "file:///sdcard/clear.png" Samples.clear_png
              Samples.start 1 1 [10; 20; 30; 0]%Z [])
    as (H & _ & _).
  - split; vm_compute; reflexivity.
  - left. vm_compute. reflexivity.
  - vm_compute. reflexivity.
  - reflexivity.
  - repeat constructor; lia.
  - split; [exact H|]. vm_compute. reflexivity.
Defined.

(** C6 (as amended). The resampler runs exactly when
    [max(width, height) > maxSize], [maxSize] being 1024 when the caller
    gives none. Each new dimension is [max(1, floor(dim * scale))] computed
    in double precision with [scale = min(maxSize/width, maxSize/height)]
    rounded to a double first, so it is at least 1 (100x50 with
    [maxSize = 50] gives 50x25). The output has [nw * nh * 4] bytes, and
    destination pixel [(x, y)] holds the four bytes of source pixel
    [(floor(x*width/nw), floor(y*height/nh))], read as zero outside the
    source buffer. *)
Theorem resample_when_too_large (rgba : bytes) (width height maxSize : nat) :
  (Resampler.too_large width height maxSize = true ↔ maxSize < Nat.max width height) ∧
  (Resampler.too_large width height maxSize = false →
     resize_if_large (width, height, rgba) maxSize = Some (width, height, rgba)) ∧
  (Resampler.too_large width height maxSize = true →
     match Resampler.target_dims width height maxSize with
     | None => resize_if_large (width, height, rgba) maxSize = None
     | Some (nw, nh) =>
         let resized := Resampler.resizeNearestRGBA rgba width height nw nh in
         let scale := JS.min (JS.num maxSize / JS.num width)
                        (JS.num maxSize / JS.num height) in
         resize_if_large (width, height, rgba) maxSize = Some (nw, nh, resized) ∧
         (∃ zw zh, JS.floor (JS.num width * scale) = Some zw ∧
                   JS.floor (JS.num height * scale) = Some zh ∧
                   Z.of_nat nw = Z.max 1 zw ∧ Z.of_nat nh = Z.max 1 zh) ∧
         1 ≤ nw ∧ 1 ≤ nh ∧
         length resized = nw * nh * 4 ∧
         (∀ y x c, y < nh → x < nw → c < 4 →
            let si := ((y * height / nh) * width + x * width / nw) * 4 in
            resized !! ((y * nw + x) * 4 + c) = Some (get0 rgba (si + c)) ∧
            (0 < width → 0 < height → length rgba = width * height * 4 →
             resized !! ((y * nw + x) * 4 + c) = rgba !! (si + c)))
     end) ∧
  Resampler.target_dims 100 50 50 = Some (50, 25) ∧
  (∀ env d, encode_and_write env d None = encode_and_write env d (Some 1024)).
Proof.
  split_and!.
  - apply ResamplerFacts.too_large_max.
  - intros H. unfold resize_if_large. by rewrite H.
  - intros H. unfold resize_if_large. rewrite H.
    unfold Resampler.target_dims, Resampler.scaled, Resampler.scale.
    set (scale := JS.min _ _).
    destruct (JS.floor (JS.num width * scale)) as [zw|] eqn:Ew; [|done].
    destruct (JS.floor (JS.num height * scale)) as [zh|] eqn:Eh; [|done].
    cbn [mbind option_bind]. cbv zeta.
    split_and!; [done| |lia|lia|apply ResamplerFacts.length_resizeNearestRGBA|].
    + exists zw, zh. split_and!; [done|done|lia|lia].
    + intros y x c Hy Hx Hc.
      rewrite ResamplerFacts.resizeNearestRGBA_lookup by done.
      unfold Resampler.sampled_pixel.
      set (nw := Z.to_nat (1 `max` zw)) in *. set (nh := Z.to_nat (1 `max` zh)) in *.
      change ((y * height) `div` nh) with (Resampler.src_coord y height nh).
      change ((x * width) `div` nw) with (Resampler.src_coord x width nw).
      set (sy := Resampler.src_coord y height nh).
      set (sx := Resampler.src_coord x width nw).
      set (si := (sy * width + sx) * 4).
      assert (E : [get0 rgba si; get0 rgba (si + 1); get0 rgba (si + 2);
                   get0 rgba (si + 3)] !! c = Some (get0 rgba (si + c))).
      { destruct c as [|[|[|[|c]]]]; [by rewrite ?Nat.add_0_r ..|lia]. }
      rewrite E. split; [done|]. intros Hw Hh Hl.
      rewrite (BmpFacts.get0_lookup rgba (si + c)); [done|].
      pose proof (ResamplerFacts.src_coord_lt y height nh Hy Hh) as Hsy.
      pose proof (ResamplerFacts.src_coord_lt x width nw Hx Hw) as Hsx.
      fold sy in Hsy. fold sx in Hsx. subst si. rewrite Hl.
      clearbody sy sx. clear - Hsy Hsx Hc. nia.
  - vm_compute. reflexivity.
  - done.
Qed.

(** The claim of C6 fails: at 1122x1122 with [maxSize = 1024] the code
    gives 1023x1023, where [floor(dim * maxSize / max(width, height))] is
    1024. *)
Lemma scaled_dimension_falls_short :
  Resampler.too_large 1122 1122 1024 = true ∧
  Resampler.target_dims 1122 1122 1024 = Some (1023, 1023) ∧
  Nat.max 1 (1122 * 1024 / Nat.max 1122 1122) = 1024.
Proof. split_and!; vm_compute; reflexivity. Qed.

(** C7 (as amended). Every value [ensureBmpForMedia] returns on success,
    in the BMP pass-through branch and in the encode-and-write branch
    alike, is a [file://] URI: the local path prefixed with the scheme,
    which a caller strips with [replace(/^file:\/\//, "")]. *)
Theorem returned_value_is_file_uri (env : Env) (d : nat) (uri : string)
    (m : option nat) (w : World) (p : string) (w' : World) :
  ensureBmpForMedia env d uri m w = (Ret (Some p), w') →
  ∃ path, p = "file://" +:+ path ∧ strip_file_scheme p = path ∧
          startsWith "file://" p = true.
Proof.
  assert (G : ∀ path, ∃ path', "file://" +:+ path = "file://" +:+ path' ∧
                strip_file_scheme ("file://" +:+ path) = path' ∧
                startsWith "file://" ("file://" +:+ path) = true).
  { intros path. exists path. split_and!; [done|apply strip_file_uri|by destruct path]. }
  revert uri w p w'. induction d as [|d IH]; intros uri w p w'; [done|].
  cbn [ensureBmpForMedia]. unfold try_catch at 1. unfold mbind at 1, M_bind at 1.
  destruct (toMediaPath env uri w) as [[[local|]| |] w1] eqn:Hl; try done.
  unfold mbind at 1, M_bind at 1, RNFS_readFile.
  destruct (files w1 !! strip_file_scheme local) as [b|]; [|done].
  destruct (convert _ _ _ _ _ _ _) as [[[q|]| |] w2] eqn:Hc; try done.
  intros [= -> ->].
  apply convert_returns_some in Hc as [->|[(w0 & w3 & Hs)|[out ->]]].
  - apply toMediaPath_file_uri in Hl as [path ->]. apply G.
  - by apply IH in Hs.
  - apply G.
Qed.

(** The claim of C7 fails: a BMP on disk comes back with the scheme. *)
Lemma returned_value_has_scheme_prefix :
  ensureBmpForMedia Samples.ticking 1 "/sdcard/a.bmp" None Samples.start
  = (Ret (Some "file:///sdcard/a.bmp"), Samples.start) ∧
  startsWith "file://" "file:///sdcard/a.bmp" = true.
Proof. split; vm_compute; reflexivity. Qed.

(** The sample of C7 as amended. *)
Lemma returned_value_is_file_uri_sample :
  ∃ path, "file:///sdcard/a.bmp" = "file://" +:+ path ∧
          strip_file_scheme "file:///sdcard/a.bmp" = path ∧
          startsWith "file://" "file:///sdcard/a.bmp" = true.
Proof.
  apply (returned_value_is_file_uri Samples.ticking 1 "/sdcard/a.bmp" None
           Samples.start "file:///sdcard/a.bmp" Samples.start).
  vm_compute. reflexivity.
Defined.

(** C8 (as amended). [toMediaPath] accepts a local reference ([file://]
    URI or absolute path) and a remote [http://] or [https://] URL whose
    download succeeds, each giving a [file://] URI of a local file; for
    every other reference, that is every reference that starts with none
    of [file://], [/], [http://] and [https://], and in particular every
    content-provider URI ([content://...]), it returns [null] and changes
    nothing, and so does [ensureBmpForMedia]; a remote URL whose download
    fails gives [null] as well, with no file written. *)
Theorem toMediaPath_reference_classes (env : Env) (uri : string) (w : World) :
  ((startsWith "file://" uri || startsWith "/" uri) = true →
     toMediaPath env uri w = (Ret (Some ("file://" +:+ strip_file_scheme uri)), w)) ∧
  ((startsWith "http://" uri || startsWith "https://" uri) = true →
     ∀ body, download_at env (S (events w)) uri = Some body →
       ∃ dest w', toMediaPath env uri w = (Ret (Some ("file://" +:+ dest)), w') ∧
                  files w' !! dest = Some body) ∧
  (startsWith "content://" uri = true →
     toMediaPath env uri w = (Ret None, w) ∧
     ∀ d m, ensureBmpForMedia env (S d) uri m w = (Ret None, w)) ∧
  ((startsWith "file://" uri || startsWith "/" uri) = false →
   (startsWith "http://" uri || startsWith "https://" uri) = false →
     toMediaPath env uri w = (Ret None, w) ∧
     ∀ d m, ensureBmpForMedia env (S d) uri m w = (Ret None, w)) ∧
  ((startsWith "http://" uri || startsWith "https://" uri) = true →
   download_at env (S (events w)) uri = None →
     ∃ w', toMediaPath env uri w = (Ret None, w') ∧ files w' = files w ∧
           ∀ d m, ensureBmpForMedia env (S d) uri m w = (Ret None, w')).
Proof.
  split_and!.
  - intros H. rewrite toMediaPath_cases, H.
    destruct uri; [by vm_compute in H|done].
  - intros H body Hb. rewrite toMediaPath_cases, H, Hb.
    unfold startsWith in *. rewrite orb_true_iff, !UriFacts.prefix_app in H.
    destruct H as [[r ->]|[r ->]]; cbn - [cache_file]; eexists _, _;
      (split; [reflexivity|]); cbn [files]; apply lookup_insert_eq.
  - intros H. unfold startsWith in H. apply UriFacts.prefix_app in H as [r ->].
    assert (E : toMediaPath env ("content://" +:+ r) w = (Ret None, w))
      by (by rewrite toMediaPath_cases).
    split; [done|]. intros d m. by apply ensure_unresolved.
  - intros Hl Hh.
    assert (E : toMediaPath env uri w = (Ret None, w)).
    { rewrite toMediaPath_cases, Hl, Hh. by destruct (String.eqb uri ""). }
    split; [done|]. intros d m. by apply ensure_unresolved.
  - intros Hh Hd. pose proof (toMediaPath_http env uri w Hh) as E.
    cbv zeta in E. rewrite Hd in E.
    eexists. split_and!; [exact E|done|].
    intros d m. by apply ensure_unresolved.
Qed.

(** The claim of C8 fails: a content-provider URI resolves to no file. *)
Lemma content_uri_resolves_to_null :
  toMediaPath Samples.ticking "content://media/external/images/42" Samples.start
  = (Ret None, Samples.start).
Proof. vm_compute. reflexivity. Qed.

(** The sample of C8 as amended: a local path, a content-provider URI, a
    URL of another scheme and a relative path. *)
Lemma toMediaPath_reference_classes_sample :
  toMediaPath Samples.ticking "/sdcard/a.bmp" Samples.start
  = (Ret (Some "file:///sdcard/a.bmp"), Samples.start) ∧
  ensureBmpForMedia Samples.ticking 1 "content://media/external/images/42" None
    Samples.start = (Ret None, Samples.start) ∧
  toMediaPath Samples.ticking "ftp://host/cat.png" Samples.start
  = (Ret None, Samples.start) ∧
  toMediaPath Samples.ticking "images/cat.png" Samples.start
  = (Ret None, Samples.start).
Proof.
  split_and!.
  - apply (proj1 (toMediaPath_reference_classes Samples.ticking "/sdcard/a.bmp"
                    Samples.start)). reflexivity.
  - apply (proj1 (proj2 (proj2 (toMediaPath_reference_classes Samples.ticking
                           "content://media/external/images/42" Samples.start)))).
    reflexivity.
  - apply (proj1 (proj2 (proj2 (proj2 (toMediaPath_reference_classes Samples.ticking
                           "ftp://host/cat.png" Samples.start))))); reflexivity.
  - apply (proj1 (proj2 (proj2 (proj2 (toMediaPath_reference_classes Samples.ticking
                           "images/cat.png" Samples.start))))); reflexivity.
Defined.






(** The same run, evaluated: both the first retry and the recursive call
    download the rewritten URL, and the image returned is the JPEG's. *)
Lemma alternate_rendition_run :
  let r := ensureBmpForMedia Samples.ticking 2 "https://cdn.example/cat?format=webp"
             None Samples.start in
  r.1 = Ret (Some "file:///cache/llm_img_1700000000006.bmp") ∧
  fetched r.2 = ["https://cdn.example/cat?format=webp";
                 "https://cdn.example/cat?format:jpeg";
                 "https://cdn.example/cat?format:jpeg"]%string ∧
  files r.2 !! "/cache/llm_img_1700000000006.bmp"
    = Some (Bmp.writeBmp24 [255; 0; 0; 255]%Z 1 1).
Proof. split_and!; vm_compute; reflexivity. Qed.

End PipelineFacts.

(** ** More on strings *)

Module StringFacts.
Import Uri UriFacts.

Lemma append_assoc a b c : (a +:+ b) +:+ c = a +:+ b +:+ c.
Proof.
  induction a as [|x a IH]; [reflexivity|].
  change (String x ((a +:+ b) +:+ c) = String x (a +:+ b +:+ c)). by rewrite IH.
Qed.

End StringFacts.

(** ** The bytes [detectMimeFromBytes] depends on *)

Module PrefixFacts.
Import Sniffer SnifferFacts.

Lemma has_at_take n off sig b :
  off + length sig ≤ n → has_at off sig (take n b) ↔ has_at off sig b.
Proof.
  intros H. unfold has_at.
  rewrite skipn_firstn_comm, take_take.
  replace (length sig `min` (n - off)) with (length sig) by lia. done.
Qed.

Lemma detect_take n b : 12 ≤ n → detectMimeFromBytes (take n b) = detectMimeFromBytes b.
Proof.
  intros H. rewrite !detect_val, !is_bmp_val, !is_png_val, !is_jpeg_val, !is_webp_val.
  assert (E : ∀ off sig, off + length sig ≤ 12 →
            bool_decide (has_at off sig (take n b)) = bool_decide (has_at off sig b)).
  { intros off sig Hl. apply bool_decide_ext, has_at_take. lia. }
  rewrite !E by (cbn; lia).
  assert (E2 : bool_decide (has_at 0 sig_riff (take n b) ∧ has_at 8 sig_webp (take n b))
             = bool_decide (has_at 0 sig_riff b ∧ has_at 8 sig_webp b)).
  { apply bool_decide_ext. rewrite !has_at_take by (cbn; lia). done. }
  by rewrite E2.
Qed.

(** X1. [detectMimeFromBytes] looks at the first 12 bytes only: two
    buffers that agree on their first 12 bytes get the same
    classification, whatever follows and however long they are. *)
Theorem classification_reads_a_12_byte_prefix (b1 b2 : bytes) :
  take 12 b1 = take 12 b2 →
  detectMimeFromBytes b1 = detectMimeFromBytes b2.
Proof.
  intros H. rewrite <- (detect_take 12 b1), <- (detect_take 12 b2) by done.
  by rewrite H.
Qed.

Lemma classification_reads_a_12_byte_prefix_sample :
  detectMimeFromBytes (sig_jpeg ++ replicate 20 7%Z)
  = detectMimeFromBytes (sig_jpeg ++ replicate 9 7%Z ++ replicate 30 9%Z).
Proof. apply classification_reads_a_12_byte_prefix. reflexivity. Defined.

Lemma detect_bmp_prefix rest : detectMimeFromBytes (0x42 :: 0x4d :: rest)%Z = image_bmp.
Proof. by rewrite detect_val. Qed.

End PrefixFacts.

(** ** More on [writeBmp24] *)

Module EncoderFacts.
Import Sniffer Bmp BmpFacts.


(** X2. Whatever buffer and dimensions [writeBmp24] is given, its output
    is classified [image/bmp] by [detectMimeFromBytes]. *)
Theorem encoder_output_is_classified_bmp (rgba : bytes) (width height : nat) :
  detectMimeFromBytes (writeBmp24 rgba width height) = image_bmp.
Proof.
  rewrite writeBmp24_layout. unfold layout, layout_header.
  rewrite <- app_assoc. apply PrefixFacts.detect_bmp_prefix.
Qed.


Lemma map_ext_seq {A} (f g : nat → A) lo n :
  (∀ i, lo ≤ i < lo + n → f i = g i) → map f (seq lo n) = map g (seq lo n).
Proof.
  intros H. apply map_ext_in. intros i Hi%in_seq. apply H. lia.
Qed.

Lemma map_ext_rev_seq {A} (f g : nat → A) n :
  (∀ i, i < n → f i = g i) → map f (reverse (seq 0 n)) = map g (reverse (seq 0 n)).
Proof.
  intros H. apply map_ext_in. intros i Hi. apply H.
  apply list_elem_of_In, elem_of_reverse, elem_of_seq in Hi. lia.
Qed.

Lemma layout_agree rgba1 rgba2 width height :
  width * height * 4 ≤ length rgba1 →
  width * height * 4 ≤ length rgba2 →
  (∀ k c, k < width * height → c < 3 → rgba1 !! (4 * k + c) = rgba2 !! (4 * k + c)) →
  layout rgba1 width height = layout rgba2 width height.
Proof.
  intros H1 H2 H. unfold layout. f_equal. f_equal.
  apply map_ext_rev_seq. intros y Hy. unfold layout_row. f_equal. f_equal.
  apply map_ext_seq. intros x Hx. unfold layout_pixel.
  assert (Hk : y * width + x < width * height) by nia.
  rewrite !bool_decide_eq_false_2 by lia.
  unfold get0. set (k := y * width + x) in *.
  assert (E : ∀ c, k * 4 + c = 4 * k + c) by lia.
  assert (E0 : k * 4 = 4 * k + 0) by lia.
  rewrite (E 2), (E 1), E0. by rewrite !H by lia.
Qed.

(** X14. The remaining header fields of [writeBmp24]'s output, read as
    little-endian integers, whatever the pixel loops wrote after them:
    reserved 0 at offset 6, header size 40 at 14, the width at 18 and the
    height at 22, one plane at 26, no compression at 30, the size of the
    pixel data (the file size less 54) at 34, 2835 pixels per metre at 38
    and 42, and 0 colours at 46 and 50. *)
Theorem dib_header_fields (rgba : bytes) (width height : nat) :
  let out := writeBmp24 rgba width height in
  let field n off := le_value (take n (drop off out)) in
  field 4 6 = 0%Z ∧
  field 4 14 = 40%Z ∧
  field 4 18 = (Z.of_nat width mod 2 ^ 32)%Z ∧
  field 4 22 = (Z.of_nat height mod 2 ^ 32)%Z ∧
  field 2 26 = 1%Z ∧
  field 4 30 = 0%Z ∧
  field 4 34 = (Z.of_nat (length out - 54) mod 2 ^ 32)%Z ∧
  field 4 38 = 2835%Z ∧
  field 4 42 = 2835%Z ∧
  field 4 46 = 0%Z ∧
  field 4 50 = 0%Z.
Proof.
  intros out field. subst field out.
  assert (Hlen : length (writeBmp24 rgba width height) - 54 = imageSize width height).
  { rewrite writeBmp24_layout, length_layout. unfold fileSize. lia. }
  rewrite Hlen, writeBmp24_layout.
  set (L := layout rgba width height).
  change (take 4 (drop 6 L)) with (le32 0).
  change (take 4 (drop 14 L)) with (le32 40).
  change (take 4 (drop 18 L)) with (le32 (Z.of_nat width)).
  change (take 4 (drop 22 L)) with (le32 (Z.of_nat height)).
  change (take 2 (drop 26 L)) with (le16 1).
  change (take 4 (drop 30 L)) with (le32 0).
  change (take 4 (drop 34 L)) with (le32 (Z.of_nat (imageSize width height))).
  change (take 4 (drop 38 L)) with (le32 2835).
  change (take 4 (drop 42 L)) with (le32 2835).
  change (take 4 (drop 46 L)) with (le32 0).
  change (take 4 (drop 50 L)) with (le32 0).
  rewrite !le_value_le32. split_and!; reflexivity.
Qed.

(** X15. [writeBmp24] reads the R, G and B bytes of the first
    [width * height] pixels and nothing else: two buffers holding at least
    that many pixels and agreeing on those bytes give the same file,
    whatever their alpha bytes and whatever follows the last pixel. *)
Theorem encoder_reads_colour_channels_only (rgba1 rgba2 : bytes) (width height : nat) :
  width * height * 4 ≤ length rgba1 →
  width * height * 4 ≤ length rgba2 →
  (∀ k c, k < width * height → c < 3 → rgba1 !! (4 * k + c) = rgba2 !! (4 * k + c)) →
  writeBmp24 rgba1 width height = writeBmp24 rgba2 width height.
Proof. intros H1 H2 H. rewrite !writeBmp24_layout. by apply layout_agree. Qed.

Lemma encoder_reads_colour_channels_only_sample :
  writeBmp24 [10; 20; 30; 0]%Z 1 1 = writeBmp24 [10; 20; 30; 255; 77; 78]%Z 1 1.
Proof.
  apply encoder_reads_colour_channels_only; [cbn; lia..|].
  intros k c Hk Hc. assert (k = 0) as -> by lia.
  destruct c as [|[|[|c]]]; [reflexivity..|lia].
Defined.

End EncoderFacts.

(** ** What [ensureBmpForMedia] returns *)

Module ResultFacts.
Import Sniffer Uri Pipeline PipelineFacts.

Section WithEnv.
Context (env : Env).

(** Where a value returned by [convert] comes from, with the world it is
    returned in. *)
Lemma convert_returns_from self uri m local b w p w' :
  convert env self uri m local b w = (Ret (Some p), w') →
  (detectMimeFromBytes b = image_bmp ∧ p = local ∧ w' = w) ∨
  (∃ w0, self (replace_hint uri) w0 = (Ret (Some p), w')) ∨
  (∃ d w0, encode_and_write env d m w0 = (Ret (Some p), w')).
Proof.
  unfold convert. case_bool_decide as Hb.
  { intros [= <- <-]. by left. }
  unfold mbind at 1, M_bind at 1.
  match goal with |- context [let (_, _) := ?x in _] =>
    destruct x as [[[r|d]| |] w2] eqn:E end; try done.
  - intros [= -> ->]. right. left.
    destruct (detectMimeFromBytes b); try done.
    all: revert E; unfold webp_block, try_catch, RNFS_readFile; unfold_M.
    all: intros E; repeat (case_match; simplify_eq/=); eauto.
  - intros E'. right. right. eauto.
Qed.

(** [p] is the [file://] URI of a file of [w] that is classified BMP. *)
Definition bmp_on_disk (w : World) (p : string) : Prop :=
  ∃ path b, p = "file://" +:+ path ∧ files w !! path = Some b ∧
            detectMimeFromBytes b = image_bmp.

Lemma encode_and_write_on_disk d m w p w' :
  encode_and_write env d m w = (Ret (Some p), w') → bmp_on_disk w' p.
Proof.
  rewrite encode_and_write_run. cbv zeta.
  repeat case_match; intros [= <- <-].
  eexists _, _. split_and!; [done|apply lookup_insert_eq|].
  rewrite BmpFacts.writeBmp24_layout. unfold Bmp.layout, Bmp.layout_header.
  rewrite <- app_assoc. apply PrefixFacts.detect_bmp_prefix.
Qed.

Lemma ensure_on_disk d uri m w p w' :
  ensureBmpForMedia env d uri m w = (Ret (Some p), w') → bmp_on_disk w' p.
Proof.
  revert uri w p w'. induction d as [|d IH]; intros uri w p w'; [done|].
  cbn [ensureBmpForMedia]. unfold try_catch at 1. unfold mbind at 1, M_bind at 1.
  destruct (toMediaPath env uri w) as [[[local|]| |] w1] eqn:Hl; try done.
  unfold mbind at 1, M_bind at 1, RNFS_readFile.
  destruct (files w1 !! strip_file_scheme local) as [b|] eqn:Hf; [|done].
  destruct (convert _ _ _ _ _ _ _) as [[[q|]| |] w2] eqn:Hc; try done.
  intros [= -> ->].
  apply convert_returns_from in Hc as [(Hb & -> & ->)|[(w0 & Hs)|(dd & w0 & He)]].
  - apply toMediaPath_file_uri in Hl as [path ->].
    rewrite strip_file_uri in Hf. by exists path, b.
  - by apply IH in Hs.
  - by apply encode_and_write_on_disk in He.
Qed.

Lemma ensure_bmp_on_disk d p m w :
  bmp_on_disk w p → ensureBmpForMedia env (S d) p m w = (Ret (Some p), w).
Proof.
  intros (path & b & -> & Hf & Hb).
  assert (Ht : toMediaPath env ("file://" +:+ path) w
               = (Ret (Some ("file://" +:+ path)), w)).
  { rewrite toMediaPath_cases.
    change (startsWith "file://" ("file://" +:+ path)) with (startsWith "" path).
    replace (startsWith "" path) with true by (by destruct path).
    by rewrite strip_file_uri. }
  rewrite (ensure_resolved env d _ m w ("file://" +:+ path) b w).
  - unfold try_catch, convert. by rewrite Hb.
  - split; [done|]. by rewrite strip_file_uri.
Qed.

End WithEnv.

(** X3. Every URI [ensureBmpForMedia] returns is [file://] followed by
    the path of a file that exists when the call returns and whose
    content starts with [BM], so that [detectMimeFromBytes] classifies it
    [image/bmp]. *)
Theorem result_names_a_bmp_file (env : Env) (d : nat) (uri : string)
    (m : option nat) (w : World) (p : string) (w' : World) :
  ensureBmpForMedia env d uri m w = (Ret (Some p), w') →
  ∃ path b, p = "file://" +:+ path ∧ files w' !! path = Some b ∧
            detectMimeFromBytes b = image_bmp ∧
            take 2 b = [0x42; 0x4d]%Z.
Proof.
  intros (path & b & -> & Hf & Hb)%ensure_on_disk.
  exists path, b. split_and!; try done.
  rewrite SnifferFacts.detect_val, SnifferFacts.is_bmp_val in Hb.
  case_bool_decide as H; [done|]. repeat case_match; done.
Qed.

Lemma result_names_a_bmp_file_sample :
  ∃ path b, "file:///cache/llm_img_1700000000000.bmp" = "file://" +:+ path ∧
    files (ensureBmpForMedia Samples.ticking 1 "/sdcard/red.jpg" None Samples.start).2
      !! path = Some b ∧
    detectMimeFromBytes b = image_bmp ∧ take 2 b = [0x42; 0x4d]%Z.
Proof.
  apply (result_names_a_bmp_file Samples.ticking 1 "/sdcard/red.jpg" None Samples.start).
  vm_compute. reflexivity.
Defined.

(** X4. [ensureBmpForMedia] is idempotent: called on a URI it returned,
    in the world it left, with any [maxSize], it returns the same URI and
    changes nothing, neither files nor clock nor network. *)
Theorem normalisation_is_idempotent (env : Env) (d d' : nat) (uri : string)
    (m m' : option nat) (w : World) (p : string) (w' : World) :
  ensureBmpForMedia env d uri m w = (Ret (Some p), w') →
  ensureBmpForMedia env (S d') p m' w' = (Ret (Some p), w').
Proof. intros H%ensure_on_disk. by apply ensure_bmp_on_disk. Qed.

Lemma normalisation_is_idempotent_sample :
  let r := ensureBmpForMedia Samples.ticking 1 "/sdcard/red.jpg" None Samples.start in
  ensureBmpForMedia Samples.ticking 1 "file:///cache/llm_img_1700000000000.bmp"
    (Some 16) r.2
  = (Ret (Some "file:///cache/llm_img_1700000000000.bmp"), r.2).
Proof.
  intros r.
  apply (normalisation_is_idempotent Samples.ticking 1 0 "/sdcard/red.jpg" None
           (Some 16) Samples.start).
  vm_compute. reflexivity.
Defined.

End ResultFacts.

(** ** The files written *)

Module CacheFacts.
Import Sniffer Uri Pipeline PipelineFacts.

Section WithEnv.
Context (env : Env).

(** The path starts with [`${RNFS.CachesDirectoryPath}/llm_img_`]. *)
Definition in_cache (path : string) : bool :=
  startsWith (CachesDirectoryPath env +:+ "/llm_img_") path.

(** [m] leaves every file outside the cache names as it is. *)
Definition keeps_others {A} (m : M A) : Prop :=
  ∀ w path, in_cache path = false → files (m w).2 !! path = files w !! path.

Lemma in_cache_cache_file now ext : in_cache (cache_file env now ext) = true.
Proof.
  unfold in_cache, startsWith, cache_file. apply UriFacts.prefix_app.
  eexists. by rewrite StringFacts.append_assoc.
Qed.

Lemma keeps_others_still {A} (m : M A) : (∀ w, (m w).2 = w) → keeps_others m.
Proof. intros H w path _. by rewrite H. Qed.

Lemma keeps_others_bind {A B} (m : M A) (f : A → M B) :
  keeps_others m → (∀ a, keeps_others (f a)) → keeps_others (m ≫= f).
Proof.
  intros Hm Hf w path Hp. specialize (Hm w path Hp). unfold_M.
  destruct (m w) as [[a| |] w1]; [|done..].
  cbn in Hm. by rewrite Hf.
Qed.

Lemma keeps_others_try_catch {A} (m h : M A) :
  keeps_others m → keeps_others h → keeps_others (try_catch m h).
Proof.
  intros Hm Hh w path Hp. specialize (Hm w path Hp). unfold try_catch.
  destruct (m w) as [[a| |] w1]; [done| |done].
  cbn in Hm. by rewrite Hh.
Qed.

Lemma keeps_others_ret {A} (a : A) : keeps_others (mret a).
Proof. by apply keeps_others_still. Qed.

Lemma keeps_others_readFile path : keeps_others (RNFS_readFile path).
Proof. apply keeps_others_still. intros w. unfold RNFS_readFile. by case_match. Qed.

Lemma keeps_others_toMediaPath uri : keeps_others (toMediaPath env uri).
Proof.
  intros w path Hp. rewrite toMediaPath_cases. cbv zeta.
  repeat case_match; try done. cbn [snd files].
  apply lookup_insert_ne. intros <-. by rewrite in_cache_cache_file in Hp.
Qed.

Lemma keeps_others_encode_and_write d m : keeps_others (encode_and_write env d m).
Proof.
  intros w path Hp. rewrite encode_and_write_run. cbv zeta.
  repeat case_match; try done. cbn [snd files].
  apply lookup_insert_ne. intros <-. by rewrite in_cache_cache_file in Hp.
Qed.

Lemma keeps_others_png_block b : keeps_others (png_block env b).
Proof. apply keeps_others_still. intros w. unfold png_block. by repeat case_match. Qed.

Lemma keeps_others_jpeg_block b : keeps_others (jpeg_block env b).
Proof. apply keeps_others_still. intros w. unfold jpeg_block. by repeat case_match. Qed.

Lemma keeps_others_unknown_block b : keeps_others (unknown_block env b).
Proof.
  unfold unknown_block.
  auto using keeps_others_try_catch, keeps_others_png_block, keeps_others_jpeg_block,
    keeps_others_ret.
Qed.

Lemma keeps_others_webp_block self uri :
  (∀ u, keeps_others (self u)) → keeps_others (webp_block env self uri).
Proof.
  intros H. unfold webp_block.
  apply keeps_others_try_catch; [|apply keeps_others_ret].
  case_match; [|apply keeps_others_ret].
  apply keeps_others_bind; [apply keeps_others_toMediaPath|]. intros altLocal.
  apply keeps_others_bind.
  - destruct altLocal; [|apply keeps_others_ret].
    apply keeps_others_bind; [apply keeps_others_readFile|]. intros b.
    case_match; [|apply keeps_others_ret].
    apply keeps_others_bind; [done|]. intros. apply keeps_others_ret.
  - intros [r|]; apply keeps_others_ret.
Qed.

Lemma keeps_others_convert self uri m local b :
  (∀ u, keeps_others (self u)) → keeps_others (convert env self uri m local b).
Proof.
  intros H. unfold convert. case_bool_decide; [apply keeps_others_ret|].
  apply keeps_others_bind.
  - destruct (detectMimeFromBytes b).
    all: try (apply keeps_others_bind; [|intros; apply keeps_others_ret]).
    all: auto using keeps_others_png_block, keeps_others_jpeg_block,
           keeps_others_unknown_block, keeps_others_webp_block.
  - intros [r|d]; [apply keeps_others_ret|apply keeps_others_encode_and_write].
Qed.

Lemma keeps_others_ensure d uri m : keeps_others (ensureBmpForMedia env d uri m).
Proof.
  revert uri. induction d as [|d IH]; intros uri; [by apply keeps_others_still|].
  rewrite ensure_unfold.
  apply keeps_others_try_catch; [|apply keeps_others_ret].
  apply keeps_others_bind; [apply keeps_others_toMediaPath|].
  intros [local|]; [|apply keeps_others_ret].
  apply keeps_others_bind; [apply keeps_others_readFile|]. intros b.
  by apply keeps_others_convert.
Qed.

End WithEnv.

(** X5. [ensureBmpForMedia] and [toMediaPath] create or overwrite only
    files named [`${RNFS.CachesDirectoryPath}/llm_img_...`]: every other
    path holds after the call what it held before, and is absent if it
    was absent. *)
Theorem writes_stay_in_cache (env : Env) (d : nat) (uri : string)
    (m : option nat) (w : World) (path : string) :
  startsWith (CachesDirectoryPath env +:+ "/llm_img_") path = false →
  files (ensureBmpForMedia env d uri m w).2 !! path = files w !! path ∧
  files (toMediaPath env uri w).2 !! path = files w !! path.
Proof.
  intros H. split; [by apply keeps_others_ensure|by apply keeps_others_toMediaPath].
Qed.

Lemma writes_stay_in_cache_sample :
  let run := ensureBmpForMedia Samples.ticking 2 "https://cdn.example/cat?format=webp"
               None Samples.start in
  files run.2 !! "/sdcard/red.jpg" = files Samples.start !! "/sdcard/red.jpg" ∧
  files (toMediaPath Samples.ticking "https://cdn.example/cat?format=webp"
           Samples.start).2 !! "/sdcard/red.jpg"
  = files Samples.start !! "/sdcard/red.jpg".
Proof.
  apply (writes_stay_in_cache Samples.ticking 2 "https://cdn.example/cat?format=webp"
           None Samples.start "/sdcard/red.jpg").
  reflexivity.
Defined.

End CacheFacts.

(** ** The downloads started *)

Module NetworkFacts.
Import Sniffer Uri Pipeline PipelineFacts.

Section WithEnv.
Context (env : Env).







(** A reference that is not remote is resolved without the network. *)
Lemma quiet_toMediaPath_local uri : is_http uri = false → quiet (toMediaPath env uri).
Proof.
  intros H w. rewrite toMediaPath_cases. unfold is_http in H. rewrite H.
  by repeat case_match.
Qed.




Lemma quiet_webp_block self uri :
  is_http (replace_hint uri) = false → quiet (self (replace_hint uri)) →
  quiet (webp_block env self uri).
Proof.
  intros Hl H. unfold webp_block.
  apply quiet_try_catch; [|apply quiet_ret].
  case_match; [|apply quiet_ret].
  apply quiet_bind; [by apply quiet_toMediaPath_local|].
  intros altLocal. apply quiet_bind.
  - destruct altLocal; [|apply quiet_ret].
    apply quiet_bind; [apply quiet_readFile|].
    intros b. case_match; [|apply quiet_ret].
    apply quiet_bind; [done|]. intros. apply quiet_ret.
  - intros [r|]; apply quiet_ret.
Qed.

Lemma quiet_convert self uri m local b :
  is_http (replace_hint uri) = false → quiet (self (replace_hint uri)) →
  quiet (convert env self uri m local b).
Proof.
  intros Hl H. unfold convert. case_bool_decide; [apply quiet_ret|].
  apply quiet_bind.
  - destruct (detectMimeFromBytes b).
    all: try (apply quiet_bind; [|intros; apply quiet_ret]).
    all: auto using quiet_png_block, quiet_jpeg_block, quiet_unknown_block,
           quiet_webp_block.
  - intros [r|d]; [apply quiet_ret|apply quiet_encode_and_write].
Qed.

(** [uri.startsWith("file://") || uri.startsWith("/")] *)
Definition is_local (uri : string) : bool :=
  startsWith "file://" uri || startsWith "/" uri.

Lemma is_local_not_http uri : is_local uri = true → is_http uri = false.
Proof.
  unfold is_local, is_http, startsWith. rewrite orb_true_iff, !UriFacts.prefix_app.
  by intros [[r ->]|[r ->]].
Qed.

Lemma is_local_replace_hint uri : is_local uri = true → is_local (replace_hint uri) = true.
Proof.
  unfold is_local, startsWith. rewrite !orb_true_iff.
  intros [H|H]; [left|right].
  - apply UriFacts.prefix_app in H as [r ->].
    change ("file://" +:+ r)
      with (String "f" (String "i" (String "l" (String "e" (String ":"
             (String "/" (String "/" r))))))).
    rewrite !UriFacts.replace_hint_copy by (by destruct r).
    by destruct (replace_hint r).
  - by apply UriFacts.replace_hint_keeps_prefix.
Qed.

Lemma quiet_ensure_local d uri m :
  is_local uri = true → quiet (ensureBmpForMedia env d uri m).
Proof.
  revert uri. induction d as [|d IH]; intros uri H; [done|].
  rewrite ensure_unfold.
  apply quiet_try_catch; [|apply quiet_ret].
  apply quiet_bind; [by apply quiet_toMediaPath_local, is_local_not_http|].
  intros [local|]; [|apply quiet_ret].
  apply quiet_bind; [apply quiet_readFile|]. intros b.
  apply quiet_convert.
  - by apply is_local_not_http, is_local_replace_hint.
  - by apply IH, is_local_replace_hint.
Qed.

End WithEnv.


(** X7. For a reference that is not an [http://] or [https://] URL,
    [ensureBmpForMedia] starts no download, also when the file is a WebP
    and its path carries the hint. *)
Theorem local_reference_stays_offline (env : Env) (d : nat) (uri : string)
    (m : option nat) (w : World) :
  (startsWith "http://" uri || startsWith "https://" uri) = false →
  fetched (ensureBmpForMedia env d uri m w).2 = fetched w.
Proof.
  intros H. destruct (is_local uri) eqn:Hl; [by apply quiet_ensure_local|].
  destruct d as [|d]; [done|].
  rewrite (ensure_unresolved env d uri m w w); [done|].
  rewrite toMediaPath_cases. unfold is_local in Hl. rewrite Hl, H.
  by case_match.
Qed.

Lemma local_reference_stays_offline_sample :
  fetched (ensureBmpForMedia Samples.ticking 2 "/sdcard/clear.png" None Samples.start).2
  = fetched Samples.start.
Proof.
  apply (local_reference_stays_offline Samples.ticking 2 "/sdcard/clear.png" None
           Samples.start).
  reflexivity.
Defined.

End NetworkFacts.

(** ** The branches of [ensureBmpForMedia], end to end *)

Module BranchFacts.
Import Sniffer Uri Pipeline PipelineFacts.

Section WithEnv.
Context (env : Env).

Lemma toMediaPath_local uri w :
  NetworkFacts.is_local uri = true →
  toMediaPath env uri w = (Ret (Some ("file://" +:+ strip_file_scheme uri)), w).
Proof.
  intros H. rewrite toMediaPath_cases. unfold NetworkFacts.is_local in H. rewrite H.
  destruct uri; [by vm_compute in H|done].
Qed.

(** What the outer [try]/[catch] makes of [encode_and_write]. *)
Lemma encode_and_write_caught d m w width height rgba :
  resize_if_large (or_placeholder d) (default 1024 m) = Some (width, height, rgba) →
  let outPath := cache_file env (Date_now_at env (events w)) "bmp" in
  try_catch (encode_and_write env d m) (mret None) w =
    if writable_at env (S (events w)) outPath then
      (Ret (Some ("file://" +:+ outPath)),
       {| files := <[outPath := Bmp.writeBmp24 rgba width height]> (files w);
          events := S (S (events w)); fetched := fetched w |})
    else
      (Ret None, {| files := files w; events := S (S (events w));
                    fetched := fetched w |}).
Proof.
  intros H outPath. unfold try_catch. rewrite encode_and_write_run, H. cbv zeta.
  fold outPath. by destruct (writable_at env _ outPath).
Qed.

Lemma resize_if_small width height rgba maxSize :
  Resampler.too_large width height maxSize = false →
  resize_if_large (width, height, rgba) maxSize = Some (width, height, rgba).
Proof. intros H. unfold resize_if_large. by rewrite H. Qed.

End WithEnv.

(** X8. A local reference to a file classified BMP is returned as
    [file://] and its path with nothing read from the clock, written or
    downloaded, whatever [maxSize] is: a BMP is never resized or
    re-encoded. *)
Theorem bmp_passes_through_untouched (env : Env) (d : nat) (uri : string)
    (m : option nat) (w : World) (b : bytes) :
  (startsWith "file://" uri || startsWith "/" uri) = true →
  files w !! strip_file_scheme uri = Some b →
  detectMimeFromBytes b = image_bmp →
  ensureBmpForMedia env (S d) uri m w
  = (Ret (Some ("file://" +:+ strip_file_scheme uri)), w).
Proof.
  intros Hl Hf Hb.
  rewrite (ensure_resolved env d uri m w ("file://" +:+ strip_file_scheme uri) b w).
  - unfold try_catch, convert. by rewrite Hb.
  - split; [by apply toMediaPath_local|]. by rewrite strip_file_uri.
Qed.

Lemma bmp_passes_through_untouched_sample :
  ensureBmpForMedia Samples.ticking 1 "file:///sdcard/a.bmp" (Some 0) Samples.start
  = (Ret (Some "file:///sdcard/a.bmp"), Samples.start).
Proof.
  apply (bmp_passes_through_untouched Samples.ticking 0 "file:///sdcard/a.bmp" (Some 0)
           Samples.start Samples.bmp_file); reflexivity.
Defined.

(** X9. A local reference to a file that does not exist makes
    [ensureBmpForMedia] return [null], with nothing written or
    downloaded. *)
Theorem missing_local_file_gives_null (env : Env) (d : nat) (uri : string)
    (m : option nat) (w : World) :
  (startsWith "file://" uri || startsWith "/" uri) = true →
  files w !! strip_file_scheme uri = None →
  ensureBmpForMedia env (S d) uri m w = (Ret None, w).
Proof.
  intros Hl Hf.
  apply (ensure_unreadable env d uri m w ("file://" +:+ strip_file_scheme uri) w).
  - by apply toMediaPath_local.
  - by rewrite strip_file_uri.
Qed.

Lemma missing_local_file_gives_null_sample :
  ensureBmpForMedia Samples.ticking 1 "/sdcard/none.png" None Samples.start
  = (Ret None, Samples.start).
Proof.
  apply (missing_local_file_gives_null Samples.ticking 0 "/sdcard/none.png" None
           Samples.start); reflexivity.
Defined.

(** X10. For bytes classified JPEG, or of unknown format that
    [UPNG.decode] rejects, which [JPEG.decode] decodes to an image within
    [maxSize] (1024 by default), [ensureBmpForMedia] reads the clock once
    and writes exactly one file, [writeBmp24] of the decoded data as they
    are, and returns its [file://] URI; when that write fails it returns
    [null] and writes nothing. *)
Theorem jpeg_is_encoded_as_decoded (env : Env) (d : nat) (uri : string)
    (m : option nat) (w : World) (local : string) (b : bytes) (w1 : World)
    (width height : nat) (data : bytes) :
  resolves_to env uri w local b w1 →
  detectMimeFromBytes b = image_jpeg ∨
    (detectMimeFromBytes b = application_octet_stream ∧ UPNG_decode env b = None) →
  JPEG_decode env b = Some (width, height, data) →
  Resampler.too_large width height (default 1024 m) = false →
  let outPath := cache_file env (Date_now_at env (events w1)) "bmp" in
  ensureBmpForMedia env (S d) uri m w =
    if writable_at env (S (events w1)) outPath then
      (Ret (Some ("file://" +:+ outPath)),
       {| files := <[outPath := Bmp.writeBmp24 data width height]> (files w1);
          events := S (S (events w1)); fetched := fetched w1 |})
    else
      (Ret None, {| files := files w1; events := S (S (events w1));
                    fetched := fetched w1 |}).
Proof.
  intros Hr Hm Hd Hs outPath. subst outPath.
  rewrite (ensure_resolved _ _ _ _ _ _ _ _ Hr).
  rewrite <- (encode_and_write_caught env (width, height, Some data) m w1 width height data)
    by (by apply resize_if_small).
  unfold try_catch at 1 2. destruct Hm as [Hm|[Hm Hp]].
  - rewrite convert_jpeg by done. unfold mbind, M_bind, jpeg_block. by rewrite Hd.
  - rewrite convert_unknown by done.
    unfold mbind, M_bind, unknown_block, try_catch, png_block, jpeg_block.
    by rewrite Hp, Hd.
Qed.

Lemma jpeg_is_encoded_as_decoded_sample :
  ensureBmpForMedia Samples.ticking 1 "/sdcard/red.jpg" None Samples.start
  = (Ret (Some "file:///cache/llm_img_1700000000000.bmp"),
     {| files := <["/cache/llm_img_1700000000000.bmp" :=
                     Bmp.writeBmp24 [255; 0; 0; 255]%Z 1 1]> Samples.disk;
        events := 2; fetched := [] |}).
Proof.
  apply (jpeg_is_encoded_as_decoded Samples.ticking 0 "/sdcard/red.jpg" None
           Samples.start "file:///sdcard/red.jpg" Samples.red_jpeg Samples.start
           1 1 [255; 0; 0; 255]%Z).
  - split; reflexivity.
  - left. reflexivity.
  - reflexivity.
  - reflexivity.
Defined.

(** X11. For bytes of unknown format that both decoders reject,
    [ensureBmpForMedia] writes the 58 bytes listed, which are the BMP
    encoding of the single white pixel [255,255,255,255], and returns the
    URI of that file, whatever [maxSize] is; it returns [null] only when
    that write fails. *)
Theorem undecodable_unknown_becomes_white_pixel (env : Env) (d : nat) (uri : string)
    (m : option nat) (w : World) (local : string) (b : bytes) (w1 : World) :
  resolves_to env uri w local b w1 →
  detectMimeFromBytes b = application_octet_stream →
  UPNG_decode env b = None → JPEG_decode env b = None →
  let white_bmp : bytes :=
    [0x42; 0x4d; 58; 0; 0; 0; 0; 0; 0; 0; 54; 0; 0; 0;
     40; 0; 0; 0; 1; 0; 0; 0; 1; 0; 0; 0; 1; 0; 24; 0; 0; 0; 0; 0;
     4; 0; 0; 0; 19; 11; 0; 0; 19; 11; 0; 0; 0; 0; 0; 0; 0; 0; 0; 0;
     255; 255; 255; 0]%Z in
  let outPath := cache_file env (Date_now_at env (events w1)) "bmp" in
  Bmp.writeBmp24 [255; 255; 255; 255]%Z 1 1 = white_bmp ∧
  ensureBmpForMedia env (S d) uri m w =
    if writable_at env (S (events w1)) outPath then
      (Ret (Some ("file://" +:+ outPath)),
       {| files := <[outPath := white_bmp]> (files w1);
          events := S (S (events w1)); fetched := fetched w1 |})
    else
      (Ret None, {| files := files w1; events := S (S (events w1));
                    fetched := fetched w1 |}).
Proof.
  intros Hr Hm Hp Hj white_bmp outPath. split; [reflexivity|].
  rewrite (unknown_decode_failure_absorbed env d uri m w local b w1) by done.
  unfold white_bmp. rewrite <- white_bmp_bytes.
  apply BranchFacts.encode_and_write_caught. apply placeholder_size.
Qed.

Lemma undecodable_unknown_becomes_white_pixel_sample :
  let white_bmp : bytes :=
    [0x42; 0x4d; 58; 0; 0; 0; 0; 0; 0; 0; 54; 0; 0; 0;
     40; 0; 0; 0; 1; 0; 0; 0; 1; 0; 0; 0; 1; 0; 24; 0; 0; 0; 0; 0;
     4; 0; 0; 0; 19; 11; 0; 0; 19; 11; 0; 0; 0; 0; 0; 0; 0; 0; 0; 0;
     255; 255; 255; 0]%Z in
  Bmp.writeBmp24 [255; 255; 255; 255]%Z 1 1 = white_bmp ∧
  ensureBmpForMedia Samples.ticking 1 "/sdcard/notes.txt" None
    {| files := <["/sdcard/notes.txt" := [104; 105]%Z]> Samples.disk;
       events := 0; fetched := [] |}
  = (Ret (Some "file:///cache/llm_img_1700000000000.bmp"),
     {| files := <["/cache/llm_img_1700000000000.bmp" := white_bmp]>
                   (<["/sdcard/notes.txt" := [104; 105]%Z]> Samples.disk);
        events := 2; fetched := [] |}).
Proof.
  pose (w0 := {| files := <["/sdcard/notes.txt" := [104; 105]%Z]> Samples.disk;
                 events := 0; fetched := [] |}).
  apply (undecodable_unknown_becomes_white_pixel Samples.ticking 0 "/sdcard/notes.txt"
           None w0 "file:///sdcard/notes.txt" [104; 105]%Z w0).
  - split; reflexivity.
  - reflexivity.
  - reflexivity.
  - reflexivity.
Defined.

End BranchFacts.

(** ** More on [toMediaPath] *)

Module LocatorFacts.
Import Sniffer Uri Pipeline PipelineFacts Names.

Lemma before_append sep p q : before sep (p +:+ String sep q) = before sep p.
Proof.
  induction p as [|c p IH].
  - change (before sep (String sep q) = ""). cbn. by rewrite Ascii.eqb_refl.
  - change (before sep (String c (p +:+ String sep q)) = before sep (String c p)).
    cbn. destruct (Ascii.eqb c sep); [done|]. by rewrite IH.
Qed.

(** Cutting at [c] and then at [d] is cutting at the first of the two. *)
Lemma before_comm c d s : before c (before d s) = before d (before c s).
Proof.
  induction s as [|x s IH]; [done|]. cbn.
  destruct (Ascii.eqb x d) eqn:Ed, (Ascii.eqb x c) eqn:Ec; cbn; rewrite ?Ed, ?Ec; try done.
  by rewrite IH.
Qed.

Lemma clean_append_query uri q :
  before "#" (before "?" (uri +:+ String "?" q)) = before "#" (before "?" uri).
Proof. by rewrite before_append. Qed.

Lemma clean_append_fragment uri q :
  before "#" (before "?" (uri +:+ String "#" q)) = before "#" (before "?" uri).
Proof. by rewrite !(before_comm "#" "?"), before_append. Qed.

Lemma ext_match_alnum s e : ext_match s = Some e → e ≠ "" ∧ all_alnum e = true.
Proof.
  induction s as [|c s IH]; [done|]. cbn.
  destruct (Ascii.eqb c "." && negb (String.eqb s "") && all_alnum s) eqn:E; [|done].
  intros [= <-]. rewrite !andb_true_iff, negb_true_iff in E.
  destruct E as [[_ E1] E2]. split; [|done]. by intros ->.
Qed.

Lemma download_ext_alnum uri : download_ext uri ≠ "" ∧ all_alnum (download_ext uri) = true.
Proof.
  unfold download_ext. destruct (ext_match _) as [e|] eqn:E; [|done].
  by apply ext_match_alnum in E.
Qed.

(** X12. A URI [toMediaPath] returned is resolved to itself, with no
    download and no other effect. *)
Theorem resolved_reference_is_a_fixed_point (env : Env) (uri : string) (w : World)
    (l : string) (w' : World) :
  toMediaPath env uri w = (Ret (Some l), w') →
  toMediaPath env l w' = (Ret (Some l), w').
Proof.
  intros [path ->]%toMediaPath_file_uri.
  rewrite toMediaPath_cases.
  change (startsWith "file://" ("file://" +:+ path)) with (startsWith "" path).
  replace (startsWith "" path) with true by (by destruct path).
  by rewrite strip_file_uri.
Qed.

Lemma resolved_reference_is_a_fixed_point_sample :
  let r := toMediaPath Samples.ticking "https://cdn.example/dog.webp" Samples.start in
  toMediaPath Samples.ticking "file:///cache/llm_img_1700000000000.webp" r.2
  = (Ret (Some "file:///cache/llm_img_1700000000000.webp"), r.2).
Proof.
  intros r.
  apply (resolved_reference_is_a_fixed_point Samples.ticking
           "https://cdn.example/dog.webp" Samples.start).
  vm_compute. reflexivity.
Defined.

(** X13. The extension [toMediaPath] gives a downloaded file is never
    empty and made of letters and digits only, is [jpg] when the URL has
    none, and does not change when a query or a fragment is appended to
    the URL; the file is
    [`${RNFS.CachesDirectoryPath}/llm_img_${Date.now()}.${ext}`]. *)
Theorem download_name_is_safe (env : Env) (uri : string) (w : World) :
  let ext := download_ext uri in
  ext ≠ "" ∧ all_alnum ext = true ∧
  (ext_match (before "#" (before "?" uri)) = None → ext = "jpg") ∧
  (∀ q, download_ext (uri +:+ String "?" q) = ext) ∧
  (∀ q, download_ext (uri +:+ String "#" q) = ext) ∧
  (is_http uri = true → ∀ l w',
     toMediaPath env uri w = (Ret (Some l), w') →
     l = "file://" +:+ CachesDirectoryPath env +:+ "/llm_img_" +:+
           decimal (Date_now_at env (events w)) +:+ "." +:+ ext).
Proof.
  intros ext. subst ext. split_and!.
  - apply download_ext_alnum.
  - apply download_ext_alnum.
  - unfold download_ext. by intros ->.
  - intros q. unfold download_ext. by rewrite clean_append_query.
  - intros q. unfold download_ext. by rewrite clean_append_fragment.
  - intros Hu l w'. rewrite toMediaPath_http by done. cbv zeta.
    destruct (download_at env _ uri); by intros [= <- <-].
Qed.

End LocatorFacts.

(** ** Pixels: resampling and compositing *)

Module PixelFacts.
Import Compositor CompositorFacts Resampler ResamplerFacts BmpFacts.

(** Two buffers of [n] pixels are equal when they agree on every channel
    of every pixel. *)
Lemma list_eq_pixels (a b : bytes) n :
  length a = n * 4 → length b = n * 4 →
  (∀ k c, k < n → c < 4 → a !! (k * 4 + c) = b !! (k * 4 + c)) → a = b.
Proof.
  intros Ha Hb H. apply list_eq. intros i.
  destruct (decide (i < n * 4)) as [Hi|Hi].
  - rewrite (Nat.div_mod_eq i 4), (Nat.mul_comm 4).
    apply H; [|apply Nat.mod_upper_bound; lia].
    apply Nat.Div0.div_lt_upper_bound. lia.
  - rewrite !(proj2 (lookup_ge_None _ _)) by lia. done.
Qed.

Definition is_byte (z : Z) : Prop := (0 ≤ z < 256)%Z.

Lemma get0_is_byte (l : bytes) i : Forall is_byte l → is_byte (get0 l i).
Proof.
  intros H. unfold get0. destruct (l !! i) as [z|] eqn:E; [|by unfold is_byte].
  by eapply Forall_lookup_1.
Qed.

Lemma blend_exact_range c a :
  is_byte c → is_byte a → (c ≤ blend_exact c a ≤ 255)%Z.
Proof.
  unfold is_byte, blend_exact. intros Hc Ha. split.
  - apply Z.div_le_lower_bound; [lia|]. nia.
  - apply Z.lt_succ_r, Z.div_lt_upper_bound; [lia|]. nia.
Qed.

Lemma blend_range c a : is_byte c → is_byte a → (c ≤ blend c a ≤ 255)%Z.
Proof.
  intros Hc Ha. rewrite blend_is_exact by done. by apply blend_exact_range.
Qed.

Lemma blended_pixel_lookup rgba k c :
  c < 3 →
  blended_pixel rgba k !! c
  = Some (blend (get0 rgba (4 * k + c)) (get0 rgba (4 * k + 3))).
Proof.
  intros Hc. unfold blended_pixel.
  destruct c as [|[|[|c]]]; [by rewrite Nat.add_0_r|done..|lia].
Qed.

Lemma blended_pixel_alpha rgba k : blended_pixel rgba k !! 3 = Some 255%Z.
Proof. done. Qed.

(** X16. [resizeNearestRGBA] to the dimensions of the source returns the
    source buffer's content unchanged. *)
Theorem resize_to_same_size_is_identity (src : bytes) (width height : nat) :
  length src = width * height * 4 →
  resizeNearestRGBA src width height width height = src.
Proof.
  intros Hl. apply (list_eq_pixels _ _ (width * height)); [|done|].
  { apply length_resizeNearestRGBA. }
  intros k c Hk Hc.
  assert (Hw : 0 < width) by (destruct width; lia).
  assert (Hy : k / width < height) by (apply Nat.Div0.div_lt_upper_bound; lia).
  assert (Hx : k mod width < width) by (apply Nat.mod_upper_bound; lia).
  assert (Ek : k = k / width * width + k mod width)
    by (rewrite (Nat.mul_comm _ width); apply Nat.div_mod_eq).
  rewrite Ek at 1. rewrite resizeNearestRGBA_lookup by done.
  unfold sampled_pixel, src_coord.
  rewrite !Nat.div_mul by lia. rewrite <- Ek.
  assert (Hi : k * 4 + c < length src) by lia.
  rewrite (get0_lookup src (k * 4 + c) Hi).
  destruct c as [|[|[|[|c]]]]; [by rewrite Nat.add_0_r|done..|lia].
Qed.

Lemma resize_to_same_size_is_identity_sample :
  resizeNearestRGBA [1; 2; 3; 4; 5; 6; 7; 8]%Z 2 1 2 1 = [1; 2; 3; 4; 5; 6; 7; 8]%Z.
Proof. apply resize_to_same_size_is_identity. reflexivity. Defined.

(** X17. For a source buffer of [srcW * srcH] pixels, every pixel
    [resizeNearestRGBA] writes is a pixel of the source: the sampled
    coordinates lie inside the source image and none of the four reads
    falls outside the buffer. *)
Theorem resize_samples_inside_the_source
    (src : bytes) (srcW srcH dstW dstH : nat) (y x : nat) :
  length src = srcW * srcH * 4 → 0 < srcW → 0 < srcH →
  y < dstH → x < dstW →
  ∃ sy sx, sy < srcH ∧ sx < srcW ∧
    sy = y * srcH / dstH ∧ sx = x * srcW / dstW ∧
    ∀ c, c < 4 →
      resizeNearestRGBA src srcW srcH dstW dstH !! ((y * dstW + x) * 4 + c)
      = src !! ((sy * srcW + sx) * 4 + c) ∧
      is_Some (src !! ((sy * srcW + sx) * 4 + c)).
Proof.
  intros Hl HW HH Hy Hx.
  exists (src_coord y srcH dstH), (src_coord x srcW dstW).
  pose proof (src_coord_lt y srcH dstH Hy HH) as Hsy.
  pose proof (src_coord_lt x srcW dstW Hx HW) as Hsx.
  split_and!; [done..|]. intros c Hc.
  set (sy := src_coord y srcH dstH) in *. set (sx := src_coord x srcW dstW) in *.
  assert (Hi : (sy * srcW + sx) * 4 + c < length src) by nia.
  rewrite resizeNearestRGBA_lookup by done.
  rewrite (get0_lookup src _ Hi). split; [|eauto].
  unfold sampled_pixel. fold sy sx.
  destruct c as [|[|[|[|c]]]]; [by rewrite Nat.add_0_r|done..|lia].
Qed.

Lemma resize_samples_inside_the_source_sample :
  ∃ sy sx, sy < 1 ∧ sx < 2 ∧ sy = 0 * 1 / 1 ∧ sx = 0 * 2 / 1 ∧
    ∀ c, c < 4 →
      resizeNearestRGBA [1; 2; 3; 4; 5; 6; 7; 8]%Z 2 1 1 1 !! ((0 * 1 + 0) * 4 + c)
      = [1; 2; 3; 4; 5; 6; 7; 8]%Z !! ((sy * 2 + sx) * 4 + c) ∧
      is_Some ([1; 2; 3; 4; 5; 6; 7; 8]%Z !! ((sy * 2 + sx) * 4 + c)).
Proof.
  apply (resize_samples_inside_the_source [1; 2; 3; 4; 5; 6; 7; 8]%Z 2 1 1 1 0 0);
    [reflexivity|lia..].
Defined.

(** X18. Compositing leaves a fully opaque frame as it is: when every
    alpha byte is 255 the composited buffer equals the decoded frame. *)
Theorem opaque_frame_is_unchanged (rgba : bytes) (width height : nat) :
  length rgba = width * height * 4 →
  Forall is_byte rgba →
  (∀ k, k < width * height → rgba !! (k * 4 + 3) = Some 255%Z) →
  compositeOnWhite rgba width height = rgba.
Proof.
  intros Hl Hb Ha. apply (list_eq_pixels _ _ (width * height)); [|done|].
  { apply length_compositeOnWhite. }
  intros k c Hk Hc. rewrite compositeOnWhite_lookup by done.
  destruct (decide (c = 3)) as [->|Hc3].
  - by rewrite Ha.
  - rewrite blended_pixel_lookup by lia.
    replace (4 * k + 3) with (k * 4 + 3) by lia.
    replace (4 * k + c) with (k * 4 + c) by lia.
    unfold get0 at 2. rewrite Ha by done. cbn [default].
    rewrite blend_opaque by (by apply get0_is_byte).
    symmetry. apply get0_lookup. lia.
Qed.

Lemma opaque_frame_is_unchanged_sample :
  compositeOnWhite [10; 20; 30; 255]%Z 1 1 = [10; 20; 30; 255]%Z.
Proof.
  apply opaque_frame_is_unchanged.
  - reflexivity.
  - repeat constructor; unfold is_byte; lia.
  - intros k Hk. assert (k = 0) as -> by lia. reflexivity.
Defined.

(** X19. Compositing onto white never darkens: every byte of the
    composited buffer lies between the byte of the frame at the same
    index and 255. *)
Theorem compositing_only_brightens (rgba : bytes) (width height : nat) (i : nat) :
  length rgba = width * height * 4 →
  Forall is_byte rgba →
  i < width * height * 4 →
  ∃ v, compositeOnWhite rgba width height !! i = Some v ∧
       (get0 rgba i ≤ v ≤ 255)%Z.
Proof.
  intros Hl Hb Hi.
  assert (Ei : i = i / 4 * 4 + i mod 4)
    by (rewrite (Nat.mul_comm _ 4); apply Nat.div_mod_eq).
  assert (Hk : i / 4 < width * height) by (apply Nat.Div0.div_lt_upper_bound; lia).
  assert (Hc : i mod 4 < 4) by (apply Nat.mod_upper_bound; lia).
  assert (E : compositeOnWhite rgba width height !! i
              = blended_pixel rgba (i / 4) !! (i mod 4)).
  { rewrite Ei at 1. by apply compositeOnWhite_lookup. }
  setoid_rewrite E.
  destruct (decide (i mod 4 = 3)) as [E3|Hc3].
  - rewrite E3. eexists. split; [done|].
    pose proof (get0_is_byte rgba i Hb) as Hg. unfold is_byte in Hg. lia.
  - rewrite blended_pixel_lookup by lia. eexists. split; [done|].
    replace (4 * (i / 4) + i mod 4) with i by lia.
    apply blend_range; by apply get0_is_byte.
Qed.

Lemma compositing_only_brightens_sample :
  ∃ v, compositeOnWhite [10; 20; 30; 128]%Z 1 1 !! 1 = Some v ∧
       (get0 [10; 20; 30; 128]%Z 1 ≤ v ≤ 255)%Z.
Proof.
  apply compositing_only_brightens.
  - reflexivity.
  - repeat constructor; unfold is_byte; lia.
  - lia.
Defined.

(** X20. Compositing is idempotent: compositing the composited buffer
    again changes nothing. *)
Theorem compositing_is_idempotent (rgba : bytes) (width height : nat) :
  length rgba = width * height * 4 →
  Forall is_byte rgba →
  let once := compositeOnWhite rgba width height in
  compositeOnWhite once width height = once.
Proof.
  intros Hl Hb once.
  assert (Hlen : length once = width * height * 4) by apply length_compositeOnWhite.
  assert (Hbytes : ∀ k c, k < width * height → c < 3 →
            ∃ v, once !! (k * 4 + c) = Some v ∧ is_byte v).
  { intros k c Hk Hc. unfold once. rewrite compositeOnWhite_lookup by lia.
    rewrite blended_pixel_lookup by done. eexists. split; [done|].
    pose proof (get0_is_byte rgba (4 * k + c) Hb) as H1.
    pose proof (blend_range _ _ H1 (get0_is_byte rgba (4 * k + 3) Hb)) as H2.
    unfold is_byte in *. lia. }
  assert (Halpha : ∀ k, k < width * height → once !! (k * 4 + 3) = Some 255%Z).
  { intros k Hk. unfold once. by rewrite compositeOnWhite_lookup by lia. }
  apply (list_eq_pixels _ _ (width * height)); [|done|].
  { apply length_compositeOnWhite. }
  intros k c Hk Hc. rewrite compositeOnWhite_lookup by done.
  destruct (decide (c = 3)) as [->|Hc3].
  - by rewrite Halpha.
  - rewrite blended_pixel_lookup by lia.
    replace (4 * k + 3) with (k * 4 + 3) by lia.
    replace (4 * k + c) with (k * 4 + c) by lia.
    destruct (Hbytes k c Hk ltac:(lia)) as (v & Ev & Hv).
    unfold get0. rewrite Halpha, Ev by done. cbn [default].
    by rewrite blend_opaque.
Qed.

Lemma compositing_is_idempotent_sample :
  compositeOnWhite (compositeOnWhite [10; 20; 30; 128]%Z 1 1) 1 1
  = compositeOnWhite [10; 20; 30; 128]%Z 1 1.
Proof.
  apply compositing_is_idempotent.
  - reflexivity.
  - repeat constructor; unfold is_byte; lia.
Defined.

End PixelFacts.

(** ** The conversation *)

Module ChatFacts.
Import Sniffer Uri Pipeline PipelineFacts Chat.

Lemma toggleThought_lookup i j prev :
  toggleThought i prev !! j
  = (λ msg, if decide (j = i) then toggled msg else msg) <$> prev !! j.
Proof. unfold toggleThought. apply list_lookup_imap. Qed.

(** [msg.showThought] as a condition. *)
Definition shown (msg : Message) : bool := default false (showThought msg).

(** X21. [toggleThought(i)] keeps the number of messages and every
    message but the one at index [i]; of that one it negates
    [showThought], an absent [showThought] counting as [false], and keeps
    role, content and thought; an index past the end changes nothing; and
    three toggles are one. *)
Theorem toggleThought_flips_one_message (i : nat) (prev : list Message) :
  length (toggleThought i prev) = length prev ∧
  (∀ j, j ≠ i → toggleThought i prev !! j = prev !! j) ∧
  (∀ msg, prev !! i = Some msg →
     ∃ msg', toggleThought i prev !! i = Some msg' ∧
       shown msg' = negb (shown msg) ∧
       role msg' = role msg ∧ content msg' = content msg ∧
       thought msg' = thought msg) ∧
  (length prev ≤ i → toggleThought i prev = prev) ∧
  toggleThought i (toggleThought i (toggleThought i prev)) = toggleThought i prev.
Proof.
  split_and!.
  - unfold toggleThought. apply length_imap.
  - intros j Hj. rewrite toggleThought_lookup.
    destruct (prev !! j); [|done]. cbn. by rewrite decide_False.
  - intros msg Hm. rewrite toggleThought_lookup, Hm. cbn.
    rewrite decide_True by done. by eexists.
  - intros Hi. apply list_eq. intros j. rewrite toggleThought_lookup.
    destruct (prev !! j) eqn:E; [|done]. cbn.
    apply lookup_lt_Some in E. by rewrite decide_False by lia.
  - apply list_eq. intros j. rewrite !toggleThought_lookup.
    destruct (prev !! j) as [[r c t s]|]; [|done]. cbn.
    destruct (decide (j = i)); [|done].
    unfold toggled. cbn. by destruct (default false s).
Qed.

Lemma last_app_take (l : list Message) x :
  last l = Some x → l = take (length l - 1) l ++ [x].
Proof.
  intros [l' ->]%last_Some.
  rewrite length_app. cbn. replace (length l' + 1 - 1) with (length l') by lia.
  by rewrite take_app_length.
Qed.

(** X22. The state update of [stopGeneration] fails exactly on an empty
    conversation; otherwise it keeps the number of messages, all roles and
    every message but the last, to whose content it appends two line
    feeds and [*Generation stopped by user*] when it is an assistant
    message, and which it leaves as it is otherwise. *)
Theorem stop_marks_the_last_assistant_message (prev : list Message) :
  (mark_stopped prev = None ↔ prev = []) ∧
  ∀ next, mark_stopped prev = Some next →
    length next = length prev ∧
    (∀ j, j + 1 < length prev → next !! j = prev !! j) ∧
    (role <$> next) = (role <$> prev) ∧
    ∃ lastMessage lastMessage',
      last prev = Some lastMessage ∧ last next = Some lastMessage' ∧
      content lastMessage' =
        (if decide (role lastMessage = assistant)
         then content lastMessage +:+
              String "010" (String "010" "*Generation stopped by user*")
         else content lastMessage) ∧
      thought lastMessage' = thought lastMessage ∧
      showThought lastMessage' = showThought lastMessage.
Proof.
  unfold mark_stopped. split.
  - destruct (last prev) as [m|] eqn:E.
    + split; [by case_decide|]. by intros ->.
    + split; [intros _|done]. by apply last_None.
  - intros next. destruct (last prev) as [m|] eqn:E; [|done].
    pose proof (last_app_take prev m E) as Hp.
    assert (Hlen : 0 < length prev) by (destruct prev; [done|cbn; lia]).
    case_decide as Hr; intros [= <-].
    + split_and!.
      * rewrite length_app, length_take. cbn. lia.
      * intros j Hj. rewrite lookup_app_l by (rewrite length_take; lia).
        apply lookup_take_lt. lia.
      * rewrite Hp at 3. rewrite !fmap_app. done.
      * eexists m, _. rewrite last_snoc. split_and!; try done.
        by rewrite decide_True.
    + split_and!; try done. exists m, m. split_and!; try done.
      by rewrite decide_False.
Qed.

(** A message as plain text: [{ role: m.role, content: m.content }]. *)
Definition base (m : Message) : ApiMessage :=
  {| api_role := role m; api_content := plain (content m) |}.

Lemma apiMessages_lookup chat userText mediaPath j :
  apiMessages chat userText mediaPath !! j
  = (λ m,
      match mediaPath with
      | Some p =>
          if bool_decide (role m = user) && bool_decide (j = length chat - 1)
             && negb (String.eqb p "")
          then {| api_role := user;
                  api_content := parts [text userText; image_url (strip_file_scheme p)] |}
          else base m
      | None => base m
      end) <$> chat !! j.
Proof. unfold apiMessages. apply list_lookup_imap. Qed.

Lemma apiMessages_plain chat userText mediaPath j m :
  chat !! j = Some m →
  mediaPath = None ∨ mediaPath = Some "" ∨ role m ≠ user ∨ j ≠ length chat - 1 →
  apiMessages chat userText mediaPath !! j = Some (base m).
Proof.
  intros Hm H. rewrite apiMessages_lookup, Hm. cbn.
  destruct mediaPath as [p|]; [|done].
  destruct H as [?|[[= ->]|[?|?]]]; try done.
  - by rewrite andb_false_r.
  - by rewrite bool_decide_eq_false_2.
  - by rewrite (bool_decide_eq_false_2 (j = _)), andb_false_r by done.
Qed.

Lemma apiMessages_image chat userText p j m :
  chat !! j = Some m → role m = user → j = length chat - 1 → p ≠ "" →
  apiMessages chat userText (Some p) !! j
  = Some {| api_role := user;
            api_content := parts [text userText; image_url (strip_file_scheme p)] |}.
Proof.
  intros Hm Hr Hj Hp. rewrite apiMessages_lookup, Hm. cbn.
  rewrite !bool_decide_eq_true_2 by done.
  by rewrite (proj2 (String.eqb_neq p "")).
Qed.


Lemma displayContent_attached userInput imageUrl :
  imageUrl ≠ "" →
  displayContent userInput imageUrl
  = userInput +:+ String "010" (String "010" "![image](") +:+ imageUrl +:+ ")".
Proof.
  intros H. unfold displayContent. by rewrite (proj2 (String.eqb_neq imageUrl "")).
Qed.

(** X24. Past its two guards and with an image attached,
    [handleSendMessage] always gets to a list of messages: the earlier
    messages as plain text followed by the new user turn, which either
    carries the path, without scheme, of a file that exists and is
    classified BMP, or, when [ensureBmpForMedia] returned [null], is the
    plain text of the input followed by two line feeds and the Markdown
    link [![image](url)], the image being left out. *)
Theorem attached_image_reaches_the_model_as_a_bmp_path
    (env : Env) (d : nat) (conversation : list Message)
    (userInput imageUrl : string) (w : World) :
  imageUrl ≠ "" →
  ∃ msgs w',
    request_messages env (S (S d)) conversation userInput imageUrl w = (Ret msgs, w') ∧
    length msgs = S (length conversation) ∧
    (∀ j m, conversation !! j = Some m → msgs !! j = Some (base m)) ∧
    ((ensureBmpForMedia env (S (S d)) imageUrl (Some 1024) w = (Ret None, w') ∧
      last msgs = Some {| api_role := user;
                          api_content :=
                            plain (userInput +:+
                                   String "010" (String "010" "![image](") +:+
                                   imageUrl +:+ ")") |})
     ∨
     (∃ path b,
        ensureBmpForMedia env (S (S d)) imageUrl (Some 1024) w
          = (Ret (Some ("file://" +:+ path)), w') ∧
        last msgs = Some {| api_role := user;
                            api_content := parts [text userInput; image_url path] |} ∧
        files w' !! path = Some b ∧
        detectMimeFromBytes b = image_bmp)).
Proof.
  intros Hu. unfold request_messages.
  rewrite (proj2 (String.eqb_neq imageUrl "")) by done.
  destruct (ensure_returns env d imageUrl (Some 1024) w) as (r & w' & E).
  unfold mbind, M_bind. rewrite E.
  eexists _, w'. split; [reflexivity|].
  set (chat := newConversation conversation userInput imageUrl).
  assert (Hc : length chat = S (length conversation)).
  { unfold chat, newConversation. rewrite length_app. cbn. lia. }
  assert (Hlast : chat !! (length chat - 1)
                  = Some {| role := user; content := displayContent userInput imageUrl;
                            thought := None; showThought := None |}).
  { unfold chat, newConversation.
    rewrite lookup_app_r by (rewrite length_app; cbn; lia).
    rewrite length_app. cbn.
    by replace (length conversation + 1 - 1 - length conversation) with 0 by lia. }
  assert (Hlen : length (apiMessages chat userInput r) = length chat)
    by apply length_imap.
  split_and!.
  - by rewrite Hlen.
  - intros j m Hm. apply apiMessages_plain.
    + unfold chat, newConversation. by apply lookup_app_l_Some.
    + apply lookup_lt_Some in Hm. right. right. right. lia.
  - rewrite last_lookup, Hlen. destruct r as [p|].
    + right. destruct (ResultFacts.ensure_on_disk env _ _ _ _ _ _ E)
        as (path & b & -> & Hf & Hb).
      exists path, b. split_and!; try done.
      replace (Init.Nat.pred (length chat)) with (length chat - 1) by lia.
      rewrite (apiMessages_image chat userInput _ _ _ Hlast) by done.
      by rewrite strip_file_uri.
    + left. split; [done|].
      replace (Init.Nat.pred (length chat)) with (length chat - 1) by lia.
      rewrite (apiMessages_plain chat userInput None _ _ Hlast) by auto.
      unfold base. cbn [role content]. by rewrite displayContent_attached.
Qed.

Lemma attached_image_reaches_the_model_as_a_bmp_path_sample :
  ∃ msgs w',
    request_messages Samples.ticking 2 [] "what is this?" "/sdcard/a.bmp" Samples.start
      = (Ret msgs, w') ∧
    length msgs = 1 ∧
    (∀ j m, @nil Message !! j = Some m → msgs !! j = Some (base m)) ∧
    ((ensureBmpForMedia Samples.ticking 2 "/sdcard/a.bmp" (Some 1024) Samples.start
        = (Ret None, w') ∧
      last msgs = Some {| api_role := user;
                          api_content :=
                            plain ("what is this?" +:+
                                   String "010" (String "010" "![image](") +:+
                                   "/sdcard/a.bmp" +:+ ")") |})
     ∨
     (∃ path b,
        ensureBmpForMedia Samples.ticking 2 "/sdcard/a.bmp" (Some 1024) Samples.start
          = (Ret (Some ("file://" +:+ path)), w') ∧
        last msgs = Some {| api_role := user;
                            api_content :=
                              parts [text "what is this?"; image_url path] |} ∧
        files w' !! path = Some b ∧
        detectMimeFromBytes b = image_bmp)).
Proof.
  apply (attached_image_reaches_the_model_as_a_bmp_path Samples.ticking 0 []
           "what is this?" "/sdcard/a.bmp" Samples.start).
  discriminate.
Defined.

End ChatFacts.

(** ** Names *)

Module NamesFacts.
Import Uri UriFacts Names.

Lemma split_nonempty sep s : split sep s ≠ [].
Proof.
  destruct s as [|c s]; [done|]. cbn.
  destruct (Ascii.eqb c sep); [done|]. by destruct (split sep s).
Qed.

Lemma split_append sep a b :
  split sep (a +:+ String sep b) = split sep a ++ split sep b.
Proof.
  induction a as [|c a IH].
  - change (split sep (String sep b) = [""] ++ split sep b).
    cbn. by rewrite Ascii.eqb_refl.
  - change (split sep (String c (a +:+ String sep b))
            = split sep (String c a) ++ split sep b).
    cbn. destruct (Ascii.eqb c sep); [by rewrite IH|].
    rewrite IH. pose proof (split_nonempty sep a).
    by destruct (split sep a).
Qed.

Lemma last_split_no_sep sep s :
  includes (String sep "") (default "" (last (split sep s))) = false.
Proof.
  induction s as [|c s IH]; [by destruct sep as [[] [] [] [] [] [] [] []]|].
  cbn [split]. destruct (Ascii.eqb c sep) eqn:E.
  - pose proof (split_nonempty sep s). destruct (split sep s); [done|]. exact IH.
  - pose proof (split_nonempty sep s) as Hn.
    destruct (split sep s) as [|h [|h' t]]; [done| |exact IH].
    change (includes (String sep "") h = false) in IH.
    change (includes (String sep "") (String c h) = false).
    rewrite includes_cons, IH, orb_false_r.
    rewrite prefix_cons. apply andb_false_intro1, bool_decide_eq_false_2.
    intros ->. by rewrite Ascii.eqb_refl in E.
Qed.

(** X25. [inferMimeFromPath] returns one of [image/png], [image/jpeg],
    [image/webp] and [image/gif], never [image/bmp]; it returns
    [image/jpeg] for a path without extension; and appending a query or a
    fragment to the path does not change its result. *)
Theorem inferMimeFromPath_ignores_query (path : string) :
  inferMimeFromPath path ∈ ["image/png"; "image/jpeg"; "image/webp"; "image/gif"] ∧
  (ext_match (before "#" (before "?" path)) = None →
     inferMimeFromPath path = "image/jpeg") ∧
  (∀ q, inferMimeFromPath (path +:+ String "?" q) = inferMimeFromPath path) ∧
  (∀ q, inferMimeFromPath (path +:+ String "#" q) = inferMimeFromPath path).
Proof.
  split_and!.
  - unfold inferMimeFromPath. cbv zeta.
    repeat case_match; set_solver.
  - unfold inferMimeFromPath. by intros ->.
  - intros q. unfold inferMimeFromPath.
    by rewrite LocatorFacts.clean_append_query.
  - intros q. unfold inferMimeFromPath.
    by rewrite LocatorFacts.clean_append_fragment.
Qed.

(** X26. The label of a model file is the segment after its last [-]
    and so holds no [-]; the test [file.split("-")[-1] == "imat"] never
    succeeds, index [-1] of an array being [undefined], so that a file
    named [...-imat] is labelled [imat] and not by its full name. *)
Theorem gguf_label_is_the_last_segment (file : string) :
  gguf_label file = default "" (last (split "-" file)) ∧
  includes "-" (gguf_label file) = false ∧
  (∀ stem, gguf_label (stem +:+ "-imat") = "imat").
Proof.
  assert (E : ∀ f, gguf_label f = default "" (last (split "-" f))) by done.
  split_and!.
  - done.
  - rewrite E. apply last_split_no_sep.
  - intros stem. rewrite E.
    change (stem +:+ "-imat") with (stem +:+ String "-" "imat").
    rewrite split_append. by rewrite last_app.
Qed.

End NamesFacts.
